(** * DumbRISCVEmulator: a shallow embedding of [ver3.cpp]

    The emulator of [ver3.cpp] is a class [RiscVEmu] holding 32 registers, a
    word-indexed instruction memory and a program counter, with the pipeline
    [fetch] / [decode] / [execute] driven by [run].  This file embeds that
    class and states the properties of the specification over the embedding.

    Conventions of the embedding:
    - a [uint32_t] is a [Z] in [[0, 2^32)]; every operation whose C++ result
      is converted to [uint32_t] is wrapped with [u32];
    - an [int32_t] is a [Z] in [[-2^31, 2^31)]; [static_cast<int32_t>] and the
      implicit conversion on assignment to [int32_t imm] are [i32];
    - a [std::vector<uint32_t>] is a [list Z]; [v[i]] with [i] out of range
      has no defined behaviour in C++, the embedding returns [None] there;
    - the [while] loop of [run] is bounded by a fuel argument and reports the
      number of loop iterations (fetch cycles) it performed. *)

From Stdlib Require Import ZArith Lia Bool.
From stdpp Require Import base option list.

Local Open Scope Z_scope.

(** ** Machine integers *)

(** Conversion to [uint32_t]. *)
Definition u32 (z : Z) : Z := z mod 2 ^ 32.

(** Conversion to [int32_t] (two's complement reinterpretation). *)
Definition i32 (z : Z) : Z := (z + 2 ^ 31) mod 2 ^ 32 - 2 ^ 31.

(** ** The enumerations *)

(** [enum OPCODES] *)
Definition LUI : Z := 0x37.  (* 0b0110111 *)
Definition AUIPC : Z := 0x17.  (* 0b0010111 *)
Definition JAL : Z := 0x6F.  (* 0b1101111 *)
Definition JALR : Z := 0x67.  (* 0b1100111 *)
Definition ALU_IMM : Z := 0x13.  (* 0b0010011 *)
Definition ALU_REG : Z := 0x33.  (* 0b0110011 *)

(** [enum FUNT3_CODES] *)
Definition ADD_SUB : Z := 0x00.  (* 0b000 *)
Definition SLL : Z := 0x01.  (* 0b001 *)
Definition SLT : Z := 0x02.  (* 0b010 *)
Definition SLTU : Z := 0x03.  (* 0b011 *)
Definition XOR : Z := 0x04.  (* 0b100 *)
Definition SRL_SRA : Z := 0x05.  (* 0b101 *)
Definition OR : Z := 0x06.  (* 0b110 *)
Definition AND : Z := 0x07.  (* 0b111 *)

(** ** The class [RiscVEmu] *)

Record RiscVEmu : Type := mkRiscVEmu {
  registers : list Z;
  memory : list Z;
  pc : Z
}.

(** The constructor [RiscVEmu(size_t memory_size = 1024)]. *)
Definition new_RiscVEmu (memory_size : nat) : RiscVEmu :=
  {| registers := replicate 32 0;
     pc := 0;
     memory := replicate memory_size 0 |}.

Definition default_memory_size : nat := 1024.

Definition set_registers (r : list Z) (st : RiscVEmu) : RiscVEmu :=
  {| registers := r; memory := memory st; pc := pc st |}.

Definition set_memory (m : list Z) (st : RiscVEmu) : RiscVEmu :=
  {| registers := registers st; memory := m; pc := pc st |}.

Definition set_pc (p : Z) (st : RiscVEmu) : RiscVEmu :=
  {| registers := registers st; memory := memory st; pc := p |}.

(** [v[i]] as an rvalue: defined only for [0 <= i < v.size()]. *)
Definition vec_get (v : list Z) (i : Z) : option Z :=
  if (0 <=? i) && (i <? Z.of_nat (length v)) then v !! Z.to_nat i else None.

(** [v[i] = x]: defined only for [0 <= i < v.size()]. *)
Definition vec_set (v : list Z) (i : Z) (x : Z) : option (list Z) :=
  if (0 <=? i) && (i <? Z.of_nat (length v)) then Some (<[Z.to_nat i := x]> v)
  else None.

(** [registers[i]] read and [registers[i] = x]. *)
Definition read_reg (i : Z) (st : RiscVEmu) : option Z :=
  vec_get (registers st) i.

Definition write_reg (i : Z) (x : Z) (st : RiscVEmu) : option RiscVEmu :=
  r ← vec_set (registers st) i x; Some (set_registers r st).

(** [load_program]: the loop [for (i = 0; i < program.size(); ++i)
    memory[i] = program[i]], started at index [i]. *)
Fixpoint load_from (i : nat) (program : list Z) (mem : list Z)
  : option (list Z) :=
  match program with
  | [] => Some mem
  | w :: rest =>
      mem' ← vec_set mem (Z.of_nat i) w; load_from (S i) rest mem'
  end.

Definition load_program (program : list Z) (st : RiscVEmu) : option RiscVEmu :=
  m ← load_from 0 program (memory st); Some (set_memory m st).

(** [fetch]: [return memory[pc++]].  The increment is on a [uint32_t]. *)
Definition fetch (st : RiscVEmu) : option (Z * RiscVEmu) :=
  w ← vec_get (memory st) (pc st); Some (w, set_pc (u32 (pc st + 1)) st).

(** The tuple returned by [decode], with the names [run] binds it to. *)
Record Decoded : Type := mkDecoded {
  opcode : Z;
  rd : Z;
  funct3 : Z;
  rs1 : Z;
  rs2 : Z;
  funct7 : Z;
  imm : Z
}.

(** The [switch (opcode)] of [decode] computing [imm]; the result of every
    branch is converted to [int32_t] by the assignment to [imm]. *)
Definition decode_imm (opcode instruction : Z) : Z :=
  if (opcode =? ALU_IMM) || (opcode =? JALR) then
    Z.shiftr (i32 instruction) 20
  else if (opcode =? AUIPC) || (opcode =? LUI) then
    i32 (Z.land instruction 0xFFFFF000)
  else if opcode =? JAL then
    i32 (Z.lor
           (Z.lor
              (Z.lor (Z.land (Z.shiftr instruction 12) 0xFF)
                     (u32 (Z.shiftl (Z.land (Z.shiftr instruction 20) 0x1) 11)))
              (u32 (Z.shiftl (Z.land (Z.shiftr instruction 21) 0x3FF) 1)))
           (u32 (i32 (Z.shiftl (Z.shiftr (i32 instruction) 31) 20))))
  else 0.

Definition decode (instruction : Z) : Decoded :=
  let opcode := Z.land instruction 0x7F in
  {| opcode := opcode;
     rd := Z.land (Z.shiftr instruction 7) 0x1F;
     funct3 := Z.land (Z.shiftr instruction 12) 0x7;
     rs1 := Z.land (Z.shiftr instruction 15) 0x1F;
     rs2 := Z.land (Z.shiftr instruction 20) 0x1F;
     funct7 := Z.land (Z.shiftr instruction 25) 0x7F;
     imm := decode_imm opcode instruction |}.

(** [execute]: the [switch (opcode)] with its nested [if]s; a combination
    that matches no [case] falls out of the [switch] with nothing done. *)
Definition execute (opcode rd funct3 rs1 rs2 funct7 imm : Z) (st : RiscVEmu)
  : option RiscVEmu :=
  if opcode =? LUI then
    write_reg rd (u32 imm) st
  else if opcode =? AUIPC then
    write_reg rd (u32 (pc st + u32 imm)) st
  else if opcode =? JAL then
    st1 ← write_reg rd (pc st) st;
    Some (set_pc (u32 (pc st1 + u32 imm)) st1)
  else if opcode =? JALR then
    st1 ← write_reg rd (pc st) st;
    v ← read_reg rs1 st1;
    Some (set_pc (Z.land (u32 (v + u32 imm)) (u32 (Z.lnot 1))) st1)
  else if opcode =? ALU_IMM then
    if funct3 =? ADD_SUB then
      v ← read_reg rs1 st;
      write_reg rd (u32 (v + u32 imm)) st
    else Some st
  else if opcode =? ALU_REG then
    if funct3 =? ADD_SUB then
      if funct7 =? 0x00 then
        a ← read_reg rs1 st;
        b ← read_reg rs2 st;
        write_reg rd (u32 (a + b)) st
      else if funct7 =? 0x20 then
        a ← read_reg rs1 st;
        b ← read_reg rs2 st;
        write_reg rd (u32 (a - b)) st
      else Some st
    else Some st
  else Some st.

Definition execute_decoded (d : Decoded) (st : RiscVEmu) : option RiscVEmu :=
  execute (opcode d) (rd d) (funct3 d) (rs1 d) (rs2 d) (funct7 d) (imm d) st.

(** One iteration of the loop body of [run]. *)
Definition cycle (st : RiscVEmu) : option RiscVEmu :=
  '(instruction, st1) ← fetch st;
  execute_decoded (decode instruction) st1.

(** What a bounded execution of [run] reports. *)
Inductive outcome : Type :=
| Returned (st : RiscVEmu) (cycles : nat)
| OutOfRange
| OutOfFuel.

(** [run]: [while (pc < memory.size()) { fetch; decode; execute }], counting
    the iterations.  [pc] is compared after promotion to [size_t]. *)
Fixpoint run_from (fuel : nat) (cycles : nat) (st : RiscVEmu) : outcome :=
  if pc st <? Z.of_nat (length (memory st)) then
    match fuel with
    | O => OutOfFuel
    | S fuel' =>
        match cycle st with
        | Some st' => run_from fuel' (S cycles) st'
        | None => OutOfRange
        end
    end
  else Returned st cycles.

Definition run (fuel : nat) (st : RiscVEmu) : outcome := run_from fuel 0 st.

(** The program of [main]. *)
Definition main_program : list Z :=
  [0x00000013; 0x00500113; 0x00600193; 0x003101B3].

(** ** States used as examples *)

(** [x1 = 100], program counter 5 (one past a JALR fetched at index 4). *)
Definition jalr_example_state : RiscVEmu :=
  mkRiscVEmu (<[1%nat := 100]> (replicate 32 0)) (replicate 16 0) 5.

(** [x1 = 0xFFFFFFFF], [x2 = 1]. *)
Definition wrap_example_state : RiscVEmu :=
  mkRiscVEmu (<[2%nat := 1]> (<[1%nat := 0xFFFFFFFF]> (replicate 32 0)))
    (replicate 4 0) 0.

(** Sixteen words of memory, the word at index [i] being [i] except for
    [JAL x1, 8] ([0x008000EF]) at index 4; program counter 4. *)
Definition jal_example_state : RiscVEmu :=
  mkRiscVEmu (replicate 32 0)
    [0; 1; 2; 3; 0x008000EF; 5; 6; 7; 8; 9; 10; 11; 12; 13; 14; 15] 4.

(** ** Predicates used by the statements *)

(** An instruction word as stored in [memory]. *)
Definition word32 (w : Z) : Prop := 0 <= w < 2 ^ 32.

(** The register file keeps the size given by the constructor. *)
Definition wf_registers (st : RiscVEmu) : Prop :=
  length (registers st) = 32%nat.

(** A valid register index. *)
Definition reg_index (i : Z) : Prop := 0 <= i < 32.

(** The combinations of opcode, funct3 and funct7 that the specification
    lists as recognized. *)
Definition recognized (opcode funct3 funct7 : Z) : bool :=
  (opcode =? LUI) || (opcode =? AUIPC) || (opcode =? JAL) || (opcode =? JALR)
  || ((opcode =? ALU_IMM) && (funct3 =? ADD_SUB))
  || ((opcode =? ALU_REG) && (funct3 =? ADD_SUB)
      && ((funct7 =? 0x00) || (funct7 =? 0x20))).

(** A word whose opcode field is one of the two jumps. *)
Definition is_jump (w : Z) : bool :=
  (opcode (decode w) =? JAL) || (opcode (decode w) =? JALR).

(** A program without jump instructions. *)
Definition no_jumps (program : list Z) : Prop :=
  Forall (fun w => is_jump w = false) program.

(** The value column of the table of section 4.1 of the specification: what
    a recognized instruction assigns to [R[rd]], from the program counter
    [pcv] seen by [execute] and the values [a] of [R[rs1]] and [b] of
    [R[rs2]] before the instruction, all arithmetic modulo [2^32]. *)
Definition spec_written_value (opcode funct7 imm pcv a b : Z) : Z :=
  if opcode =? LUI then imm mod 2 ^ 32
  else if opcode =? AUIPC then (pcv + imm) mod 2 ^ 32
  else if (opcode =? JAL) || (opcode =? JALR) then pcv
  else if opcode =? ALU_IMM then (a + imm) mod 2 ^ 32
  else if funct7 =? 0x00 then (a + b) mod 2 ^ 32
  else (a - b) mod 2 ^ 32.

(** The class invariant of [RiscVEmu]: 32 registers, each a [uint32_t], and
    a [uint32_t] program counter. *)
Definition state_ok (st : RiscVEmu) : Prop :=
  wf_registers st /\ Forall word32 (registers st) /\ word32 (pc st).

(** The part of the state a register write leaves alone. *)
Definition same_but_register (d : Z) (st st' : RiscVEmu) : Prop :=
  memory st' = memory st
  /\ length (registers st') = length (registers st)
  /\ forall j, j <> d -> read_reg j st' = read_reg j st.

(** An instruction word whose opcode, funct3 and funct7 select none of the
    [case]s of [execute]. *)
Definition unsupported_word (w : Z) : bool :=
  negb (recognized (opcode (decode w)) (funct3 (decode w)) (funct7 (decode w))).

(** [x0 = 1] and the single word [JALR x0, x0, 0] ([0x00000067]): the state
    the program [[0x00000067]] reaches after its first cycle. *)
Definition spin_state : RiscVEmu :=
  mkRiscVEmu (<[0%nat := 1]> (replicate 32 0)) [0x00000067] 0.

(** * Properties *)

(** ** Machine integers *)

Lemma u32_range z : 0 <= u32 z < 2 ^ 32.
Proof. unfold u32. apply Z.mod_pos_bound. lia. Qed.

Lemma u32_small z : 0 <= z < 2 ^ 32 -> u32 z = z.
Proof. unfold u32. apply Z.mod_small. Qed.

Lemma u32_add_u32_r a b : u32 (a + u32 b) = (a + b) mod 2 ^ 32.
Proof. unfold u32. apply Zplus_mod_idemp_r. Qed.

Lemma i32_range z : - 2 ^ 31 <= i32 z < 2 ^ 31.
Proof.
  unfold i32. pose proof (Z.mod_pos_bound (z + 2 ^ 31) (2 ^ 32)). lia.
Qed.

Lemma i32_small z : - 2 ^ 31 <= z < 2 ^ 31 -> i32 z = z.
Proof. intros H. unfold i32. rewrite Z.mod_small; lia. Qed.

Lemma i32_congr a b : a mod 2 ^ 32 = b mod 2 ^ 32 -> i32 a = i32 b.
Proof.
  intros H. unfold i32. f_equal.
  rewrite <- (Zplus_mod_idemp_l a), <- (Zplus_mod_idemp_l b), H. reflexivity.
Qed.

Lemma i32_mod z : i32 z mod 2 ^ 32 = z mod 2 ^ 32.
Proof.
  unfold i32. rewrite <- Zminus_mod_idemp_l, Z.mod_mod by lia.
  rewrite Zminus_mod_idemp_l. f_equal. lia.
Qed.

(** ** Vector accesses *)

Lemma vec_get_Some (v : list Z) i :
  0 <= i < Z.of_nat (length v) -> exists x, vec_get v i = Some x.
Proof.
  intros H. unfold vec_get.
  replace ((0 <=? i) && (i <? Z.of_nat (length v))) with true
    by (symmetry; apply andb_true_iff; split; [apply Z.leb_le | apply Z.ltb_lt]; lia).
  apply lookup_lt_is_Some_2. lia.
Qed.

Lemma vec_set_Some (v : list Z) i x :
  0 <= i < Z.of_nat (length v) -> vec_set v i x = Some (<[Z.to_nat i := x]> v).
Proof.
  intros H. unfold vec_set.
  replace ((0 <=? i) && (i <? Z.of_nat (length v))) with true
    by (symmetry; apply andb_true_iff; split; [apply Z.leb_le | apply Z.ltb_lt]; lia).
  reflexivity.
Qed.

Lemma vec_get_set_eq (v : list Z) i x :
  0 <= i < Z.of_nat (length v) -> vec_get (<[Z.to_nat i := x]> v) i = Some x.
Proof.
  intros H. unfold vec_get. rewrite length_insert.
  replace ((0 <=? i) && (i <? Z.of_nat (length v))) with true
    by (symmetry; apply andb_true_iff; split; [apply Z.leb_le | apply Z.ltb_lt]; lia).
  apply list_lookup_insert_eq. lia.
Qed.

Lemma read_reg_Some st i :
  wf_registers st -> reg_index i -> exists x, read_reg i st = Some x.
Proof.
  unfold wf_registers, reg_index, read_reg. intros Hwf Hi.
  apply vec_get_Some. lia.
Qed.

Lemma write_reg_Some st i x :
  wf_registers st -> reg_index i ->
  write_reg i x st = Some (set_registers (<[Z.to_nat i := x]> (registers st)) st).
Proof.
  unfold wf_registers, reg_index, write_reg. intros Hwf Hi.
  rewrite vec_set_Some by lia. reflexivity.
Qed.

Lemma read_reg_written st i x :
  wf_registers st -> reg_index i ->
  read_reg i (set_registers (<[Z.to_nat i := x]> (registers st)) st) = Some x.
Proof.
  unfold wf_registers, reg_index, read_reg. intros Hwf Hi. simpl.
  apply vec_get_set_eq. lia.
Qed.

Lemma wf_registers_written st i x :
  wf_registers st ->
  wf_registers (set_registers (<[Z.to_nat i := x]> (registers st)) st).
Proof. unfold wf_registers. simpl. rewrite length_insert. auto. Qed.

(** ** Decode: the fixed-position fields *)

Lemma land_ones_range a n : 0 <= n -> 0 <= Z.land a (Z.ones n) < 2 ^ n.
Proof.
  intros Hn. rewrite Z.land_ones by assumption.
  apply Z.mod_pos_bound. apply Z.pow_pos_nonneg; lia.
Qed.

Lemma decode_rd_range w : reg_index (rd (decode w)).
Proof. apply (land_ones_range (Z.shiftr w 7) 5). lia. Qed.

Lemma decode_rs1_range w : reg_index (rs1 (decode w)).
Proof. apply (land_ones_range (Z.shiftr w 15) 5). lia. Qed.

Lemma decode_rs2_range w : reg_index (rs2 (decode w)).
Proof. apply (land_ones_range (Z.shiftr w 20) 5). lia. Qed.

(** ** Execute never leaves the register file when the indices are valid *)

Ltac solve_reg_access :=
  repeat match goal with
  | |- context [write_reg ?i ?x ?st] =>
      rewrite (write_reg_Some st i x) by assumption; simpl
  | |- context [read_reg ?i ?st] =>
      let v := fresh "v" in
      let E := fresh "E" in
      destruct (read_reg_Some st i) as [v E];
      [ first [assumption | apply wf_registers_written; assumption]
      | assumption
      | rewrite E; simpl ]
  | |- context [if ?c then _ else _] => destruct c
  end.

Lemma execute_Some op d f3 s1 s2 f7 im st :
  wf_registers st -> reg_index d -> reg_index s1 -> reg_index s2 ->
  exists st', execute op d f3 s1 s2 f7 im st = Some st'
              /\ wf_registers st' /\ memory st' = memory st.
Proof.
  intros Hwf Hd H1 H2. unfold execute.
  solve_reg_access;
    eexists; (split; [reflexivity | split; [| reflexivity]]);
    first [assumption | apply wf_registers_written; assumption
          | apply (wf_registers_written st d); assumption ].
Qed.

(** Outside the two jumps, [execute] leaves [pc] alone. *)
Lemma execute_pc_no_jump op d f3 s1 s2 f7 im st st' :
  (op =? JAL) || (op =? JALR) = false ->
  execute op d f3 s1 s2 f7 im st = Some st' -> pc st' = pc st.
Proof.
  intros Hj. apply orb_false_iff in Hj as [HJ HR].
  unfold execute, write_reg. rewrite HJ, HR.
  repeat match goal with
  | |- context [if ?c then _ else _] => destruct c
  end;
  repeat match goal with
  | |- context [read_reg ?i ?s] => destruct (read_reg i s); simpl
  | |- context [vec_set ?v ?i ?x] => destruct (vec_set v i x); simpl
  end; intros H; inversion H; reflexivity.
Qed.

(** ** C8: the decode example of the specification *)

(** C8. Decoding the word [0x00500113] yields opcode [ALU_IMM]
    ([0b0010011]), [rd = 2], [funct3 = 0], [rs1 = 0] and immediate [5]. *)
Theorem decode_0x00500113 :
  opcode (decode 0x00500113) = ALU_IMM
  /\ opcode (decode 0x00500113) = 19
  /\ rd (decode 0x00500113) = 2
  /\ funct3 (decode 0x00500113) = 0
  /\ rs1 (decode 0x00500113) = 0
  /\ imm (decode 0x00500113) = 5.
Proof. repeat split; reflexivity. Qed.

(** ** C6: register indices produced by decode *)

(** C6. For every 32-bit instruction word the fields [rd], [rs1] and [rs2]
    produced by [decode] lie in [[0, 32)], and [execute] applied to the
    decoded instruction performs no register access outside the 32-entry
    register array (the embedding yields [None] exactly on such an access). *)
Theorem decode_register_indices_in_bounds (w : Z) :
  word32 w ->
  (0 <= rd (decode w) < 32
   /\ 0 <= rs1 (decode w) < 32
   /\ 0 <= rs2 (decode w) < 32)
  /\ forall st, length (registers st) = 32%nat ->
                exists st', execute_decoded (decode w) st = Some st'
                            /\ length (registers st') = 32%nat.
Proof.
  intros _. split.
  - split; [apply decode_rd_range |].
    split; [apply decode_rs1_range | apply decode_rs2_range].
  - intros st Hwf. unfold execute_decoded.
    destruct (execute_Some (opcode (decode w)) (rd (decode w))
                (funct3 (decode w)) (rs1 (decode w)) (rs2 (decode w))
                (funct7 (decode w)) (imm (decode w)) st Hwf
                (decode_rd_range w) (decode_rs1_range w) (decode_rs2_range w))
      as (st' & E & Hwf' & _).
    exists st'. split; assumption.
Qed.

Lemma decode_register_indices_in_bounds_witness :
  word32 0x003101B3
  /\ (0 <= rd (decode 0x003101B3) < 32
      /\ 0 <= rs1 (decode 0x003101B3) < 32
      /\ 0 <= rs2 (decode 0x003101B3) < 32)
  /\ exists st', execute_decoded (decode 0x003101B3) (new_RiscVEmu 4) = Some st'
                 /\ length (registers st') = 32%nat.
Proof.
  assert (Hw : word32 0x003101B3) by (unfold word32; lia).
  split; [exact Hw |].
  destruct (decode_register_indices_in_bounds 0x003101B3 Hw) as [Hr He].
  split; [exact Hr |].
  apply He. reflexivity.
Defined.

(** ** C5: unrecognized combinations are no-ops *)

(** C5. For every combination of opcode, funct3 and funct7 that is not a
    recognized one, [execute] signals no fault and returns the state it was
    given: all registers, the memory and the program counter are unchanged. *)
Theorem execute_unrecognized_is_noop
  (op d f3 s1 s2 f7 im : Z) (st : RiscVEmu) :
  recognized op f3 f7 = false ->
  execute op d f3 s1 s2 f7 im st = Some st.
Proof.
  unfold recognized, execute. intros H.
  repeat match type of H with
  | _ || _ = false => apply orb_false_iff in H as [H ?]
  end.
  repeat match goal with
  | E : (?x =? ?y) = false |- context [?x =? ?y] => rewrite E
  end.
  destruct (op =? ALU_IMM) eqn:EI; simpl in *.
  - match goal with E : (f3 =? ADD_SUB) = false |- _ => rewrite E end.
    reflexivity.
  - destruct (op =? ALU_REG) eqn:ER; [| reflexivity]. simpl in *.
    destruct (f3 =? ADD_SUB) eqn:E3; [| reflexivity]. simpl in *.
    match goal with E : _ || _ = false |- _ =>
      apply orb_false_iff in E as [E0 E20] end.
    rewrite E0, E20. reflexivity.
Qed.

Lemma execute_unrecognized_is_noop_witness :
  recognized (opcode (decode 0x00001013)) (funct3 (decode 0x00001013))
    (funct7 (decode 0x00001013)) = false
  /\ execute_decoded (decode 0x00001013) (new_RiscVEmu 4)
     = Some (new_RiscVEmu 4).
Proof.
  split; [reflexivity |].
  apply (execute_unrecognized_is_noop 19 0 1 0 0 0 0 (new_RiscVEmu 4)).
  reflexivity.
Defined.

(** ** C10: JALR with [rd = rs1] *)

(** On a [uint32_t], masking with [~1] converted to [uint32_t] clears bit 0
    exactly as masking with the integer [~1]. *)
Lemma land_u32_lnot_1 x :
  0 <= x < 2 ^ 32 -> Z.land x (u32 (Z.lnot 1)) = Z.land x (Z.lnot 1).
Proof.
  intros Hx. apply Z.bits_inj'. intros n Hn.
  rewrite !Z.land_spec. unfold u32.
  destruct (Z.lt_ge_cases n 32) as [Hlt | Hge].
  - rewrite Z.mod_pow2_bits_low by lia. reflexivity.
  - rewrite <- (Z.mod_small x (2 ^ 32)) by lia.
    rewrite Z.mod_pow2_bits_high by lia. reflexivity.
Qed.

(** C10. For a JALR whose destination and source register coincide,
    [execute] stores the post-fetch program counter in that register and
    then jumps to [(link + imm) & ~1], where [link] is the value just
    written, whatever the register held before. *)
Theorem jalr_same_register_uses_link
  (r f3 s2 f7 im : Z) (st : RiscVEmu) :
  wf_registers st -> reg_index r ->
  exists st',
    execute JALR r f3 r s2 f7 im st = Some st'
    /\ read_reg r st' = Some (pc st)
    /\ pc st' = Z.land ((pc st + im) mod 2 ^ 32) (Z.lnot 1).
Proof.
  intros Hwf Hr. unfold execute. simpl.
  rewrite (write_reg_Some st r (pc st)) by assumption. simpl.
  rewrite (read_reg_written st r (pc st)) by assumption. simpl.
  eexists. split; [reflexivity |]. split.
  - apply (read_reg_written st r (pc st)); assumption.
  - simpl. rewrite u32_add_u32_r. apply land_u32_lnot_1.
    apply Z.mod_pos_bound. lia.
Qed.

Lemma jalr_same_register_uses_link_witness :
  read_reg 1 jalr_example_state = Some 100
  /\ exists st',
       execute JALR 1 0 1 0 0 8 jalr_example_state = Some st'
       /\ read_reg 1 st' = Some 5
       /\ pc st' = Z.land ((5 + 8) mod 2 ^ 32) (Z.lnot 1).
Proof.
  split; [reflexivity |].
  apply (jalr_same_register_uses_link 1 0 0 0 8 jalr_example_state).
  - reflexivity.
  - unfold reg_index. lia.
Defined.

(** ** C7: wrap-around arithmetic *)

(** C7. ADDI, ADD and SUB never fail on valid register indices and store
    the sum or difference reduced modulo [2^32]; read as a two's-complement
    number the stored value is the wrapped signed result. *)
Theorem alu_arithmetic_wraps
  (d s1 s2 f7 im a b : Z) (st : RiscVEmu) :
  wf_registers st -> reg_index d ->
  read_reg s1 st = Some a -> read_reg s2 st = Some b ->
  (exists st', execute ALU_IMM d ADD_SUB s1 s2 f7 im st = Some st'
               /\ read_reg d st' = Some ((a + im) mod 2 ^ 32)
               /\ i32 ((a + im) mod 2 ^ 32) = i32 (i32 a + im))
  /\ (exists st', execute ALU_REG d ADD_SUB s1 s2 0x00 im st = Some st'
                  /\ read_reg d st' = Some ((a + b) mod 2 ^ 32)
                  /\ i32 ((a + b) mod 2 ^ 32) = i32 (i32 a + i32 b))
  /\ (exists st', execute ALU_REG d ADD_SUB s1 s2 0x20 im st = Some st'
                  /\ read_reg d st' = Some ((a - b) mod 2 ^ 32)
                  /\ i32 ((a - b) mod 2 ^ 32) = i32 (i32 a - i32 b)).
Proof.
  intros Hwf Hd Ha Hb. unfold execute. simpl. rewrite Ha, Hb. simpl.
  rewrite !write_reg_Some by assumption.
  split; [| split]; eexists; (split; [reflexivity |]); split.
  - rewrite u32_add_u32_r. apply read_reg_written; assumption.
  - apply i32_congr. rewrite Z.mod_mod by lia.
    rewrite <- (Zplus_mod_idemp_l (i32 a)), i32_mod, Zplus_mod_idemp_l.
    reflexivity.
  - apply read_reg_written; assumption.
  - apply i32_congr. rewrite Z.mod_mod by lia.
    rewrite (Zplus_mod (i32 a)), !i32_mod, <- Zplus_mod. reflexivity.
  - apply read_reg_written; assumption.
  - apply i32_congr. rewrite Z.mod_mod by lia.
    rewrite (Zminus_mod (i32 a)), !i32_mod, <- Zminus_mod. reflexivity.
Qed.

Lemma alu_arithmetic_wraps_witness :
  (exists st', execute ALU_IMM 3 ADD_SUB 1 2 0 1 wrap_example_state = Some st'
               /\ read_reg 3 st' = Some ((0xFFFFFFFF + 1) mod 2 ^ 32)
               /\ i32 ((0xFFFFFFFF + 1) mod 2 ^ 32) = i32 (i32 0xFFFFFFFF + 1))
  /\ (exists st', execute ALU_REG 3 ADD_SUB 1 2 0x00 1 wrap_example_state
                  = Some st'
                  /\ read_reg 3 st' = Some ((0xFFFFFFFF + 1) mod 2 ^ 32)
                  /\ i32 ((0xFFFFFFFF + 1) mod 2 ^ 32)
                     = i32 (i32 0xFFFFFFFF + i32 1))
  /\ (exists st', execute ALU_REG 3 ADD_SUB 1 2 0x20 1 wrap_example_state
                  = Some st'
                  /\ read_reg 3 st' = Some ((0xFFFFFFFF - 1) mod 2 ^ 32)
                  /\ i32 ((0xFFFFFFFF - 1) mod 2 ^ 32)
                     = i32 (i32 0xFFFFFFFF - i32 1)).
Proof.
  apply (alu_arithmetic_wraps 3 1 2 0 1 0xFFFFFFFF 1 wrap_example_state).
  - reflexivity.
  - unfold reg_index. lia.
  - reflexivity.
  - reflexivity.
Defined.

(** ** C9: register 0 is an ordinary register *)

Lemma read_reg_Some_inv st i x :
  wf_registers st -> read_reg i st = Some x -> reg_index i.
Proof.
  unfold wf_registers, read_reg, vec_get, reg_index. intros Hwf.
  destruct ((0 <=? i) && (i <? Z.of_nat (length (registers st)))) eqn:E;
    [| discriminate].
  apply andb_true_iff in E as [E1 E2].
  apply Z.leb_le in E1. apply Z.ltb_lt in E2. intros _. lia.
Qed.

Lemma read_reg_set_pc i p st : read_reg i (set_pc p st) = read_reg i st.
Proof. reflexivity. Qed.

(** Every recognized instruction stores in [R[d]], for any valid [d], the
    value the table of the specification gives. *)
Lemma execute_writes_destination (op d f3 s1 s2 f7 im a b : Z) (st : RiscVEmu) :
  wf_registers st -> reg_index d ->
  read_reg s1 st = Some a -> read_reg s2 st = Some b ->
  recognized op f3 f7 = true ->
  exists st', execute op d f3 s1 s2 f7 im st = Some st'
              /\ read_reg d st'
                 = Some (spec_written_value op f7 im (pc st) a b).
Proof.
  intros Hwf Hd Ha Hb Hrec.
  pose proof (read_reg_Some_inv st s1 a Hwf Ha) as Hs1.
  unfold execute, spec_written_value. unfold recognized in Hrec.
  destruct (op =? LUI).
  { rewrite write_reg_Some by assumption. eexists. split; [reflexivity |].
    apply read_reg_written; assumption. }
  destruct (op =? AUIPC).
  { rewrite write_reg_Some by assumption. eexists. split; [reflexivity |].
    rewrite u32_add_u32_r. apply read_reg_written; assumption. }
  destruct (op =? JAL).
  { rewrite write_reg_Some by assumption. simpl. eexists.
    split; [reflexivity |]. rewrite read_reg_set_pc.
    apply read_reg_written; assumption. }
  destruct (op =? JALR).
  { rewrite write_reg_Some by assumption. simpl.
    destruct (read_reg_Some (set_registers (<[Z.to_nat d:=pc st]> (registers st)) st) s1)
      as [v Ev]; [apply wf_registers_written; assumption | assumption |].
    rewrite Ev. simpl. eexists. split; [reflexivity |].
    rewrite read_reg_set_pc. apply read_reg_written; assumption. }
  simpl in Hrec. destruct (op =? ALU_IMM) eqn:EI.
  { apply Z.eqb_eq in EI. subst op.
    change (ALU_IMM =? ALU_REG) with false in Hrec. simpl in Hrec.
    rewrite orb_false_r in Hrec. rewrite Hrec.
    rewrite Ha. simpl. rewrite write_reg_Some by assumption.
    eexists. split; [reflexivity |].
    rewrite u32_add_u32_r. apply read_reg_written; assumption. }
  simpl in Hrec. destruct (op =? ALU_REG); [| discriminate]. simpl in Hrec.
  destruct (f3 =? ADD_SUB); [| discriminate]. simpl in Hrec.
  destruct (f7 =? 0) eqn:E0.
  { rewrite Ha, Hb. simpl. rewrite write_reg_Some by assumption.
    eexists. split; [reflexivity |]. apply read_reg_written; assumption. }
  simpl in Hrec. change (f7 =? 32) with (f7 =? 0x20) in *. rewrite Hrec.
  rewrite Ha, Hb. simpl. rewrite write_reg_Some by assumption.
  eexists. split; [reflexivity |]. apply read_reg_written; assumption.
Qed.

(** C9. Register 0 is not special-cased: a recognized instruction with
    [rd = 0] stores its result in [R[0]], where it is read back, and the
    stored value is the one any other destination index would receive. *)
Theorem register_zero_is_written
  (op f3 s1 s2 f7 im a b : Z) (st : RiscVEmu) :
  wf_registers st ->
  read_reg s1 st = Some a -> read_reg s2 st = Some b ->
  recognized op f3 f7 = true ->
  (exists st0, execute op 0 f3 s1 s2 f7 im st = Some st0
               /\ read_reg 0 st0
                  = Some (spec_written_value op f7 im (pc st) a b))
  /\ forall d, reg_index d ->
       exists st', execute op d f3 s1 s2 f7 im st = Some st'
                   /\ read_reg d st'
                      = Some (spec_written_value op f7 im (pc st) a b).
Proof.
  intros Hwf Ha Hb Hrec. split.
  - apply execute_writes_destination; try assumption. unfold reg_index. lia.
  - intros d Hd. apply execute_writes_destination; assumption.
Qed.

Lemma register_zero_is_written_witness :
  opcode (decode 0x00500013) = ALU_IMM
  /\ rd (decode 0x00500013) = 0
  /\ (exists st0, execute_decoded (decode 0x00500013) (new_RiscVEmu 4) = Some st0
                  /\ read_reg 0 st0 = Some 5)
  /\ forall d, reg_index d ->
       exists st', execute ALU_IMM d 0 0 0 0 5 (new_RiscVEmu 4) = Some st'
                   /\ read_reg d st' = Some 5.
Proof.
  split; [reflexivity |]. split; [reflexivity |].
  apply (register_zero_is_written ALU_IMM 0 0 0 0 5 0 0 (new_RiscVEmu 4));
    reflexivity.
Defined.

(** The value written to [x0] is seen by the next instruction:
    [ADDI x0, x0, 5] followed by [ADDI x1, x0, 0] leaves 5 in both. *)
Example register_zero_read_by_next_instruction :
  exists st0 st',
    load_program [0x00500013; 0x00000093] (new_RiscVEmu 2) = Some st0
    /\ run 2 st0 = Returned st' 2
    /\ read_reg 0 st' = Some 5 /\ read_reg 1 st' = Some 5.
Proof.
  exists (mkRiscVEmu (replicate 32 0) [0x00500013; 0x00000093] 0).
  exists (mkRiscVEmu (<[1%nat := 5]> (<[0%nat := 5]> (replicate 32 0)))
            [0x00500013; 0x00000093] 2).
  repeat split; vm_compute; reflexivity.
Qed.

(** ** Loading a program *)

Lemma load_from_fits (program : list Z) : forall (i : nat) (mem : list Z),
  (i + length program <= length mem)%nat ->
  load_from i program mem
  = Some (take i mem ++ program ++ drop (i + length program) mem).
Proof.
  induction program as [| w rest IH]; intros i mem Hlen; simpl in *.
  - rewrite Nat.add_0_r, take_drop. reflexivity.
  - rewrite vec_set_Some by lia. simpl. rewrite Nat2Z.id.
    rewrite IH by (rewrite length_insert; lia).
    rewrite (take_S_r _ i w) by (apply list_lookup_insert_eq; lia).
    rewrite take_insert_ge by lia.
    rewrite drop_insert_lt by lia.
    rewrite <- app_assoc.
    replace (S i + length rest)%nat with (i + S (length rest))%nat by lia.
    simpl. reflexivity.
Qed.

Lemma load_program_fits (program : list Z) (st : RiscVEmu) :
  (length program <= length (memory st))%nat ->
  load_program program st
  = Some (set_memory (program ++ drop (length program) (memory st)) st).
Proof.
  intros Hlen. unfold load_program.
  rewrite load_from_fits by (simpl; lia). reflexivity.
Qed.

(** ** The run loop *)

Lemma run_from_more_fuel (fuel : nat) : forall fuel' c st st' n,
  run_from fuel c st = Returned st' n -> (fuel <= fuel')%nat ->
  run_from fuel' c st = Returned st' n.
Proof.
  induction fuel as [| fuel IH]; intros fuel' c st st' n Hrun Hle.
  - destruct fuel'; simpl in *;
      destruct (pc st <? Z.of_nat (length (memory st)));
      solve [discriminate | assumption].
  - destruct fuel' as [| fuel']; [lia |]. simpl in *.
    destruct (pc st <? Z.of_nat (length (memory st))); [| assumption].
    destruct (cycle st) as [st1 |]; [| discriminate].
    apply IH; [assumption | lia].
Qed.

Lemma vec_get_lookup (v : list Z) i x :
  vec_get v i = Some x -> v !! Z.to_nat i = Some x.
Proof.
  unfold vec_get.
  destruct ((0 <=? i) && (i <? Z.of_nat (length v))); [auto | discriminate].
Qed.

(** One cycle on a word that is not a jump: the program counter advances by
    one, the memory is untouched and the register file keeps its size. *)
Lemma cycle_no_jump (st : RiscVEmu) :
  wf_registers st -> no_jumps (memory st) ->
  Z.of_nat (length (memory st)) < 2 ^ 32 ->
  0 <= pc st < Z.of_nat (length (memory st)) ->
  exists st', cycle st = Some st'
              /\ pc st' = pc st + 1
              /\ memory st' = memory st
              /\ wf_registers st'.
Proof.
  intros Hwf Hnj Hsz Hpc.
  destruct (vec_get_Some (memory st) (pc st) Hpc) as [w Hw].
  assert (Hj : is_jump w = false).
  { apply (Forall_lookup_1 _ _ _ _ Hnj (vec_get_lookup _ _ _ Hw)). }
  unfold cycle, fetch. rewrite Hw. simpl. unfold execute_decoded.
  set (st1 := set_pc (u32 (pc st + 1)) st).
  destruct (execute_Some (opcode (decode w)) (rd (decode w))
              (funct3 (decode w)) (rs1 (decode w)) (rs2 (decode w))
              (funct7 (decode w)) (imm (decode w)) st1 Hwf
              (decode_rd_range w) (decode_rs1_range w) (decode_rs2_range w))
    as (st' & E & Hwf' & Hmem).
  exists st'. split; [exact E |]. split; [| split; assumption].
  rewrite (execute_pc_no_jump _ _ _ _ _ _ _ _ _ Hj E). simpl.
  apply u32_small. lia.
Qed.

Lemma run_from_no_jumps (n : nat) : forall (fuel c : nat) (st : RiscVEmu),
  wf_registers st -> no_jumps (memory st) ->
  Z.of_nat (length (memory st)) < 2 ^ 32 ->
  0 <= pc st ->
  pc st + Z.of_nat n = Z.of_nat (length (memory st)) ->
  (n <= fuel)%nat ->
  exists st', run_from fuel c st = Returned st' (c + n)
              /\ pc st' = Z.of_nat (length (memory st)).
Proof.
  induction n as [| n IH]; intros fuel c st Hwf Hnj Hsz Hpc0 Hpc Hfuel.
  - exists st. rewrite Nat.add_0_r.
    assert (E : (pc st <? Z.of_nat (length (memory st))) = false)
      by (apply Z.ltb_ge; lia).
    destruct fuel; simpl; rewrite E; split; solve [reflexivity | lia].
  - destruct fuel as [| fuel]; [lia |]. simpl.
    assert (E : (pc st <? Z.of_nat (length (memory st))) = true)
      by (apply Z.ltb_lt; lia).
    rewrite E.
    destruct (cycle_no_jump st Hwf Hnj Hsz) as (st1 & Ec & Hpc1 & Hmem & Hwf1);
      [lia |].
    rewrite Ec.
    destruct (IH fuel (S c) st1) as (st' & Hrun & Hend);
      rewrite ?Hmem; try assumption; try lia.
    rewrite Hmem in Hend. exists st'. split; [| assumption].
    rewrite Hrun. f_equal. lia.
Qed.

(** ** C2: number of fetch cycles of a program without jumps *)

(** C2 as stated fails: a one-word program without jumps, loaded in a
    two-word memory, is run for two fetch cycles, not one; the loop also
    executes the zero word that follows the program. *)
Lemma one_word_program_runs_two_cycles :
  no_jumps [0x00000013]
  /\ (length [0x00000013] <= 2)%nat
  /\ exists st0 st',
       load_program [0x00000013] (new_RiscVEmu 2) = Some st0
       /\ pc st0 = 0
       /\ run 1 st0 = OutOfFuel
       /\ run 2 st0 = Returned st' 2
       /\ 2%nat <> length [0x00000013].
Proof.
  split; [repeat constructor |]. split; [simpl; lia |].
  exists (mkRiscVEmu (replicate 32 0) [0x00000013; 0] 0).
  exists (mkRiscVEmu (replicate 32 0) [0x00000013; 0] 2).
  repeat split; try reflexivity. simpl. lia.
Qed.

(** C2, amended. A program of [N] words without jumps, loaded in a fresh
    emulator whose memory has [M >= N] words ([M < 2^32]), makes [run]
    return after exactly [M] fetch cycles, with the program counter at [M]:
    the loop only ends when the program counter leaves the memory. *)
Theorem run_without_jumps_cycles (memory_size : nat) (program : list Z) :
  (length program <= memory_size)%nat ->
  Z.of_nat memory_size < 2 ^ 32 ->
  no_jumps program ->
  exists st0 st',
    load_program program (new_RiscVEmu memory_size) = Some st0
    /\ (forall fuel, (memory_size <= fuel)%nat ->
                     run fuel st0 = Returned st' memory_size)
    /\ pc st' = Z.of_nat memory_size.
Proof.
  intros Hlen Hsz Hnj.
  set (st0 := set_memory
                (program ++ drop (length program) (replicate memory_size 0))
                (new_RiscVEmu memory_size)).
  assert (Hmem : length (memory st0) = memory_size).
  { simpl. rewrite length_app, length_drop, length_replicate. lia. }
  destruct (run_from_no_jumps memory_size memory_size 0%nat st0)
    as (st' & Hrun & Hpc); rewrite ?Hmem; try lia.
  - reflexivity.
  - simpl. apply Forall_app. split; [exact Hnj |].
    apply Forall_drop, Forall_replicate. reflexivity.
  - simpl. lia.
  - simpl. lia.
  - exists st0, st'. split; [| split].
    + apply load_program_fits. simpl. rewrite length_replicate. exact Hlen.
    + intros fuel Hfuel. unfold run.
      apply (run_from_more_fuel memory_size); assumption.
    + rewrite Hmem in Hpc. exact Hpc.
Qed.

Lemma run_without_jumps_cycles_witness :
  (length main_program <= default_memory_size)%nat
  /\ Z.of_nat default_memory_size < 2 ^ 32
  /\ no_jumps main_program
  /\ exists st0 st',
       load_program main_program (new_RiscVEmu default_memory_size) = Some st0
       /\ (forall fuel, (default_memory_size <= fuel)%nat ->
                        run fuel st0 = Returned st' default_memory_size)
       /\ pc st' = Z.of_nat default_memory_size.
Proof.
  assert (H1 : (length main_program <= default_memory_size)%nat)
    by (vm_compute; lia).
  assert (H2 : Z.of_nat default_memory_size < 2 ^ 32) by (vm_compute; reflexivity).
  assert (H3 : no_jumps main_program) by (repeat constructor).
  split; [exact H1 |]. split; [exact H2 |]. split; [exact H3 |].
  exact (run_without_jumps_cycles default_memory_size main_program H1 H2 H3).
Defined.

(** ** C3: JAL fetched at index 4 with immediate 8 *)

Lemma execute_JAL d f3 s1 s2 f7 im st :
  execute JAL d f3 s1 s2 f7 im st
  = (st1 ← write_reg d (pc st) st; Some (set_pc (u32 (pc st1 + u32 im)) st1)).
Proof. reflexivity. Qed.

(** C3 as stated fails: after [JAL x1, 8] fetched at index 4 the link
    register holds 5, the program counter is 13, and the next fetch returns
    the word stored at index 13, not the one at index 12. *)
Lemma jal_at_4_next_fetch_is_not_12 :
  pc jal_example_state = 4
  /\ vec_get (memory jal_example_state) 4 = Some 0x008000EF
  /\ opcode (decode 0x008000EF) = JAL
  /\ rd (decode 0x008000EF) = 1
  /\ imm (decode 0x008000EF) = 8
  /\ exists st',
       cycle jal_example_state = Some st'
       /\ read_reg 1 st' = Some 5
       /\ pc st' = 13
       /\ pc st' <> 12
       /\ fst <$> fetch st' = vec_get (memory jal_example_state) 13
       /\ fst <$> fetch st' <> vec_get (memory jal_example_state) 12.
Proof.
  repeat (split; [reflexivity |]).
  exists (mkRiscVEmu (<[1%nat := 5]> (replicate 32 0))
            (memory jal_example_state) 13).
  repeat split; try reflexivity; vm_compute; discriminate.
Qed.

(** C3, amended. A JAL fetched at program counter 4 whose decoded immediate
    is 8 sets [R[rd] = 5], the post-fetch program counter, and leaves the
    program counter at [5 + 8 = 13]: the next instruction the loop fetches
    is the word at memory index 13. *)
Theorem jal_at_4_with_immediate_8 (st : RiscVEmu) (w : Z) :
  wf_registers st ->
  pc st = 4 ->
  vec_get (memory st) 4 = Some w ->
  opcode (decode w) = JAL ->
  imm (decode w) = 8 ->
  exists st',
    cycle st = Some st'
    /\ read_reg (rd (decode w)) st' = Some 5
    /\ pc st' = 13
    /\ fst <$> fetch st' = vec_get (memory st) 13.
Proof.
  intros Hwf Hpc Hw Hop Him.
  unfold cycle, fetch. rewrite Hpc, Hw. simpl.
  unfold execute_decoded. rewrite Hop, Him, execute_JAL.
  set (st1 := set_pc (u32 (4 + 1)) st).
  assert (Hwf1 : wf_registers st1) by exact Hwf.
  rewrite (write_reg_Some st1 _ _ Hwf1 (decode_rd_range w)). simpl.
  eexists. split; [reflexivity |]. split; [| split].
  - rewrite read_reg_set_pc.
    apply (read_reg_written st1 _ 5 Hwf1 (decode_rd_range w)).
  - reflexivity.
  - unfold fetch. simpl.
    change (u32 (u32 (4 + 1) + u32 8)) with 13.
    destruct (vec_get (memory st) 13); reflexivity.
Qed.

Lemma jal_at_4_with_immediate_8_witness :
  wf_registers jal_example_state
  /\ pc jal_example_state = 4
  /\ vec_get (memory jal_example_state) 4 = Some 0x008000EF
  /\ opcode (decode 0x008000EF) = JAL
  /\ imm (decode 0x008000EF) = 8
  /\ exists st',
       cycle jal_example_state = Some st'
       /\ read_reg (rd (decode 0x008000EF)) st' = Some 5
       /\ pc st' = 13
       /\ fst <$> fetch st' = vec_get (memory jal_example_state) 13.
Proof.
  repeat (split; [reflexivity |]).
  apply (jal_at_4_with_immediate_8 jal_example_state 0x008000EF);
    reflexivity.
Defined.

(** ** C4: the program of [main] *)

(** C4. Loading the program of [main] into a freshly constructed emulator
    with the default memory size and running it to completion ends with
    [R[2] = 5], [R[3] = 11] and [R[1] = 0]; [run] returns after 1024 fetch
    cycles. *)
Theorem main_program_final_registers (fuel : nat) :
  (1024 <= fuel)%nat ->
  exists st0 st',
    load_program main_program (new_RiscVEmu default_memory_size) = Some st0
    /\ run fuel st0 = Returned st' 1024
    /\ read_reg 2 st' = Some 5
    /\ read_reg 3 st' = Some 11
    /\ read_reg 1 st' = Some 0.
Proof.
  intros Hfuel.
  exists (mkRiscVEmu (replicate 32 0) (main_program ++ replicate 1020 0) 0).
  exists (mkRiscVEmu (<[3%nat := 11]> (<[2%nat := 5]> (replicate 32 0)))
            (main_program ++ replicate 1020 0) 1024).
  split; [vm_compute; reflexivity |].
  split; [| repeat split; reflexivity].
  apply (run_from_more_fuel 1024); [vm_compute; reflexivity | exact Hfuel].
Qed.

Lemma main_program_final_registers_witness :
  exists st0 st',
    load_program main_program (new_RiscVEmu default_memory_size) = Some st0
    /\ run 1024 st0 = Returned st' 1024
    /\ read_reg 2 st' = Some 5
    /\ read_reg 3 st' = Some 11
    /\ read_reg 1 st' = Some 0.
Proof. apply (main_program_final_registers 1024). lia. Defined.

(** ** C1: the immediate of JAL *)

Lemma testbit_small_high x n i :
  0 <= x < 2 ^ n -> 0 <= n <= i -> Z.testbit x i = false.
Proof.
  intros Hx Hi. rewrite <- (Z.mod_small x (2 ^ n)) by lia.
  apply Z.mod_pow2_bits_high. lia.
Qed.

Lemma testbit_u32 z i : Z.testbit (u32 z) i = (i <? 32) && Z.testbit z i.
Proof. unfold u32. apply Z.testbit_mod_pow2. lia. Qed.

Lemma testbit_i32 z i : 0 <= i -> Z.testbit (i32 z) i = Z.testbit z (Z.min i 31).
Proof.
  intros Hi.
  pose proof (Z.mod_pos_bound z (2 ^ 32) ltac:(lia)) as Hu.
  assert (Hz31 : Z.testbit z 31 = Z.testbit (z mod 2 ^ 32) 31)
    by (rewrite Z.mod_pow2_bits_low by lia; reflexivity).
  destruct (Z.lt_ge_cases (z mod 2 ^ 32) (2 ^ 31)) as [Hlo | Hhi].
  - assert (E : i32 z = z mod 2 ^ 32).
    { unfold i32. rewrite <- Zplus_mod_idemp_l, Z.mod_small; lia. }
    rewrite E.
    destruct (Z.lt_ge_cases i 31) as [Hlt | Hge].
    + rewrite Z.min_l, Z.mod_pow2_bits_low by lia. reflexivity.
    + rewrite Z.min_r, Hz31 by lia.
      rewrite !(testbit_small_high (z mod 2 ^ 32) 31) by lia. reflexivity.
  - assert (E : i32 z = Z.lnot (2 ^ 32 - 1 - z mod 2 ^ 32)).
    { unfold i32, Z.lnot. rewrite <- Zplus_mod_idemp_l.
      replace (z mod 2 ^ 32 + 2 ^ 31) with (z mod 2 ^ 32 - 2 ^ 31 + 1 * 2 ^ 32)
        by lia.
      rewrite Z.mod_add, Z.mod_small by lia. lia. }
    destruct (Z.lt_ge_cases i 31) as [Hlt | Hge].
    + rewrite Z.min_l by lia.
      rewrite <- (Z.mod_pow2_bits_low (i32 z) 32 i) by lia.
      rewrite i32_mod. rewrite Z.mod_pow2_bits_low by lia. reflexivity.
    + rewrite Z.min_r, Hz31 by lia. rewrite E, Z.lnot_spec by lia.
      rewrite (testbit_small_high (2 ^ 32 - 1 - z mod 2 ^ 32) 31) by lia.
      symmetry. apply Z.testbit_true; [lia |].
      replace (z mod 2 ^ 32) with (z mod 2 ^ 32 - 2 ^ 31 + 1 * 2 ^ 31) by lia.
      rewrite Z.div_add, Z.div_small by lia. reflexivity.
Qed.

Lemma testbit_shiftr_total a n m :
  Z.testbit (Z.shiftr a n) m = (0 <=? m) && Z.testbit a (m + n).
Proof.
  destruct (Z.leb_spec 0 m) as [H | H]; simpl.
  - apply Z.shiftr_spec; assumption.
  - apply Z.testbit_neg_r; assumption.
Qed.

Lemma testbit_shiftl_total a n m :
  Z.testbit (Z.shiftl a n) m = (0 <=? m) && Z.testbit a (m - n).
Proof.
  destruct (Z.leb_spec 0 m) as [H | H]; simpl.
  - apply Z.shiftl_spec; assumption.
  - apply Z.testbit_neg_r; assumption.
Qed.

Lemma testbit_i32_total z i :
  Z.testbit (i32 z) i = (0 <=? i) && Z.testbit z (Z.min i 31).
Proof.
  destruct (Z.leb_spec 0 i) as [H | H]; simpl.
  - apply testbit_i32; assumption.
  - apply Z.testbit_neg_r; assumption.
Qed.

Lemma decode_imm_JAL w :
  decode_imm JAL w
  = i32 (Z.lor
           (Z.lor
              (Z.lor (Z.land (Z.shiftr w 12) (Z.ones 8))
                     (u32 (Z.shiftl (Z.land (Z.shiftr w 20) (Z.ones 1)) 11)))
              (u32 (Z.shiftl (Z.land (Z.shiftr w 21) (Z.ones 10)) 1)))
           (u32 (i32 (Z.shiftl (Z.shiftr (i32 w) 31) 20)))).
Proof. reflexivity. Qed.

(** Rewrites every comparison and [Z.min] whose outcome [lia] can settle. *)
Ltac decide_comparisons :=
  repeat match goal with
  | |- context [Z.min ?a ?b] =>
      first [rewrite (Z.min_l a b) by lia | rewrite (Z.min_r a b) by lia]
  | |- context [?a <? ?b] =>
      first [rewrite (proj2 (Z.ltb_lt a b)) by lia
            | rewrite (proj2 (Z.ltb_ge a b)) by lia]
  | |- context [?a <=? ?b] =>
      first [rewrite (proj2 (Z.leb_le a b)) by lia
            | rewrite (proj2 (Z.leb_gt a b)) by lia]
  | |- context [?a =? ?b] =>
      first [rewrite (proj2 (Z.eqb_eq a b)) by lia
            | rewrite (proj2 (Z.eqb_neq a b)) by lia]
  end.

(** What [decode] computes for a JAL word, bit by bit.  The group taken
    from instruction bits 19:12 is not shifted back to position 12: it lands
    in immediate bits 7:0, on top of the low bits of the group placed at
    10:1, and immediate bits 19:12 are always zero.  Bit 11 and the sign
    bits 31:20 are as the J-type format has them. *)
Lemma decode_jal_immediate_bits (w i : Z) :
  opcode (decode w) = JAL -> 0 <= i ->
  Z.testbit (imm (decode w)) i
  = if i =? 0 then Z.testbit w 12
    else if i <? 8 then Z.testbit w (i + 12) || Z.testbit w (i + 20)
    else if i <? 11 then Z.testbit w (i + 20)
    else if i =? 11 then Z.testbit w 20
    else if i <? 20 then false
    else Z.testbit w 31.
Proof.
  intros Hop Hi.
  change (imm (decode w)) with (decode_imm (opcode (decode w)) w).
  rewrite Hop, decode_imm_JAL.
  rewrite testbit_i32 by assumption.
  rewrite !Z.lor_spec, !testbit_u32, testbit_i32_total.
  rewrite !testbit_shiftl_total, !Z.land_spec, !testbit_shiftr_total.
  rewrite testbit_i32_total, !Z.testbit_ones by lia.
  assert (Hcases : i = 0 \/ 1 <= i < 8 \/ 8 <= i < 11 \/ i = 11
                   \/ 12 <= i < 20 \/ 20 <= i < 31 \/ 31 <= i) by lia.
  destruct Hcases as [H | [H | [H | [H | [H | [H | H]]]]]];
    decide_comparisons; cbn [andb orb];
    rewrite ?andb_false_r, ?andb_true_r, ?orb_false_r; cbn [andb orb];
    repeat (f_equal; try lia).
Qed.

(** C1. The claim does not hold of [decode]: for the JAL word [0x0000106F]
    (only instruction bit 12 set above the opcode) the decoded immediate is
    1, so its bit 0 is set and its bit 12 is clear, although instruction
    bit 12 is set. *)
Theorem decode_jal_0x0000106F :
  opcode (decode 0x0000106F) = JAL
  /\ Z.testbit 0x0000106F 12 = true
  /\ imm (decode 0x0000106F) = 1
  /\ Z.testbit (imm (decode 0x0000106F)) 0 = true
  /\ Z.testbit (imm (decode 0x0000106F)) 12 = false.
Proof. repeat split; reflexivity. Qed.

(** * Further properties of the emulator *)

(** ** Decode: the fields as quotients and remainders *)

Lemma land_shiftr_ones w k n :
  0 <= k -> 0 <= n -> Z.land (Z.shiftr w k) (Z.ones n) = (w / 2 ^ k) mod 2 ^ n.
Proof.
  intros Hk Hn. rewrite Z.land_ones, Z.shiftr_div_pow2 by assumption.
  reflexivity.
Qed.

Lemma decode_fields_div_mod w :
  opcode (decode w) = w mod 2 ^ 7
  /\ rd (decode w) = (w / 2 ^ 7) mod 2 ^ 5
  /\ funct3 (decode w) = (w / 2 ^ 12) mod 2 ^ 3
  /\ rs1 (decode w) = (w / 2 ^ 15) mod 2 ^ 5
  /\ rs2 (decode w) = (w / 2 ^ 20) mod 2 ^ 5
  /\ funct7 (decode w) = (w / 2 ^ 25) mod 2 ^ 7.
Proof.
  split; [apply (Z.land_ones w 7); lia |].
  split; [apply (land_shiftr_ones w 7 5); lia |].
  split; [apply (land_shiftr_ones w 12 3); lia |].
  split; [apply (land_shiftr_ones w 15 5); lia |].
  split; [apply (land_shiftr_ones w 20 5); lia |].
  apply (land_shiftr_ones w 25 7); lia.
Qed.

Ltac pow2_constants :=
  change (2 ^ 32) with 4294967296 in *;
  change (2 ^ 31) with 2147483648 in *;
  change (2 ^ 25) with 33554432 in *;
  change (2 ^ 20) with 1048576 in *;
  change (2 ^ 15) with 32768 in *;
  change (2 ^ 12) with 4096 in *;
  change (2 ^ 11) with 2048 in *;
  change (2 ^ 7) with 128 in *;
  change (2 ^ 5) with 32 in *;
  change (2 ^ 3) with 8 in *.

(** X3. The six fixed-position fields of [decode] partition a 32-bit word:
    opcode, funct3 and funct7 are within their 7, 3 and 7 bits, and the word
    is recovered from the six fields put back at bits 0, 7, 12, 15, 20 and
    25. *)
Theorem decode_fields_partition_word (w : Z) :
  word32 w ->
  (0 <= opcode (decode w) < 128
   /\ 0 <= funct3 (decode w) < 8
   /\ 0 <= funct7 (decode w) < 128)
  /\ w = opcode (decode w)
         + 2 ^ 7 * rd (decode w)
         + 2 ^ 12 * funct3 (decode w)
         + 2 ^ 15 * rs1 (decode w)
         + 2 ^ 20 * rs2 (decode w)
         + 2 ^ 25 * funct7 (decode w).
Proof.
  unfold word32. intros Hw.
  destruct (decode_fields_div_mod w) as (-> & -> & -> & -> & -> & ->).
  pow2_constants. Z.div_mod_to_equations. lia.
Qed.

(** X4. Conversely, a word assembled from six fields that are within their
    widths is a 32-bit word and [decode] returns exactly those fields. *)
Theorem decode_of_assembled_fields (op d f3 s1 s2 f7 w : Z) :
  0 <= op < 128 -> 0 <= d < 32 -> 0 <= f3 < 8 ->
  0 <= s1 < 32 -> 0 <= s2 < 32 -> 0 <= f7 < 128 ->
  w = op + 2 ^ 7 * d + 2 ^ 12 * f3 + 2 ^ 15 * s1 + 2 ^ 20 * s2 + 2 ^ 25 * f7 ->
  word32 w
  /\ opcode (decode w) = op /\ rd (decode w) = d /\ funct3 (decode w) = f3
  /\ rs1 (decode w) = s1 /\ rs2 (decode w) = s2 /\ funct7 (decode w) = f7.
Proof.
  intros Hop Hd Hf3 Hs1 Hs2 Hf7 Hw.
  destruct (decode_fields_div_mod w) as (-> & -> & -> & -> & -> & ->).
  unfold word32. subst w. pow2_constants.
  repeat split; try lia; Z.div_mod_to_equations; lia.
Qed.

Lemma decode_of_assembled_fields_witness :
  0x403101B3 = 0x33 + 2 ^ 7 * 3 + 2 ^ 12 * 0 + 2 ^ 15 * 2 + 2 ^ 20 * 3
               + 2 ^ 25 * 0x20
  /\ word32 0x403101B3
  /\ opcode (decode 0x403101B3) = 0x33 /\ rd (decode 0x403101B3) = 3
  /\ funct3 (decode 0x403101B3) = 0 /\ rs1 (decode 0x403101B3) = 2
  /\ rs2 (decode 0x403101B3) = 3 /\ funct7 (decode 0x403101B3) = 0x20.
Proof.
  split; [reflexivity |].
  apply (decode_of_assembled_fields 0x33 3 0 2 3 0x20 0x403101B3);
    first [lia | reflexivity].
Defined.

(** ** Decode: the I-type and U-type immediates *)

Lemma i32_word32 w :
  word32 w -> i32 w = if w <? 2 ^ 31 then w else w - 2 ^ 32.
Proof.
  unfold word32, i32. intros Hw. destruct (Z.ltb_spec w (2 ^ 31)) as [H | H].
  - rewrite Z.mod_small; lia.
  - replace (w + 2 ^ 31) with (w - 2 ^ 31 + 1 * 2 ^ 32) by lia.
    rewrite Z.mod_add, Z.mod_small; lia.
Qed.

Lemma decode_imm_I_type w :
  opcode (decode w) = ALU_IMM \/ opcode (decode w) = JALR ->
  imm (decode w) = Z.shiftr (i32 w) 20.
Proof.
  intros H. change (imm (decode w)) with (decode_imm (opcode (decode w)) w).
  destruct H as [-> | ->]; reflexivity.
Qed.

Lemma decode_imm_U_type w :
  opcode (decode w) = LUI \/ opcode (decode w) = AUIPC ->
  imm (decode w) = i32 (Z.land w 0xFFFFF000).
Proof.
  intros H. change (imm (decode w)) with (decode_imm (opcode (decode w)) w).
  destruct H as [-> | ->]; reflexivity.
Qed.

Lemma decode_imm_I_type_value w :
  word32 w ->
  opcode (decode w) = ALU_IMM \/ opcode (decode w) = JALR ->
  imm (decode w) = w / 2 ^ 20 - (if w <? 2 ^ 31 then 0 else 2 ^ 12).
Proof.
  intros Hw Hop. rewrite (decode_imm_I_type w Hop), (i32_word32 w Hw).
  rewrite Z.shiftr_div_pow2 by lia. unfold word32 in Hw.
  destruct (Z.ltb_spec w (2 ^ 31)) as [H | H]; pow2_constants;
    Z.div_mod_to_equations; lia.
Qed.

(** X5. For an I-type word (opcode ALU_IMM or JALR) the decoded immediate is
    the 12-bit field in instruction bits 31:20 read as a two's-complement
    number: the field value, minus [2^12] when instruction bit 31 is set; it
    lies in [[-2048, 2048)]. *)
Theorem decode_I_type_immediate (w : Z) :
  word32 w ->
  opcode (decode w) = ALU_IMM \/ opcode (decode w) = JALR ->
  imm (decode w) = w / 2 ^ 20 - (if w <? 2 ^ 31 then 0 else 2 ^ 12)
  /\ - 2 ^ 11 <= imm (decode w) < 2 ^ 11.
Proof.
  intros Hw Hop. rewrite (decode_imm_I_type_value w Hw Hop).
  unfold word32 in Hw. split; [reflexivity |].
  destruct (Z.ltb_spec w (2 ^ 31)) as [H | H]; pow2_constants;
    Z.div_mod_to_equations; lia.
Qed.

Lemma decode_I_type_immediate_witness :
  word32 0xFFF10113
  /\ opcode (decode 0xFFF10113) = ALU_IMM
  /\ imm (decode 0xFFF10113) = 0xFFF10113 / 2 ^ 20 - 2 ^ 12
  /\ imm (decode 0xFFF10113) = -1.
Proof.
  assert (Hw : word32 0xFFF10113) by (unfold word32; lia).
  split; [exact Hw |]. split; [reflexivity |].
  split; [| reflexivity].
  apply (decode_I_type_immediate 0xFFF10113 Hw). left. reflexivity.
Defined.

(** X6. Assembling an I-type word from an opcode ALU_IMM or JALR, register
    and funct3 fields in range and an immediate in [[-2048, 2048)] (placed
    in bits 31:20 modulo [2^12]) and decoding it gives the same fields and
    the same signed immediate back. *)
Theorem decode_I_type_round_trip (op d f3 s1 im w : Z) :
  op = ALU_IMM \/ op = JALR ->
  0 <= d < 32 -> 0 <= f3 < 8 -> 0 <= s1 < 32 ->
  - 2 ^ 11 <= im < 2 ^ 11 ->
  w = op + 2 ^ 7 * d + 2 ^ 12 * f3 + 2 ^ 15 * s1 + 2 ^ 20 * (im mod 2 ^ 12) ->
  word32 w
  /\ opcode (decode w) = op /\ rd (decode w) = d /\ funct3 (decode w) = f3
  /\ rs1 (decode w) = s1 /\ imm (decode w) = im.
Proof.
  intros Hop Hd Hf3 Hs1 Him Hw.
  assert (Hop' : 0 <= op < 128)
    by (destruct Hop as [-> | ->]; unfold ALU_IMM, JALR; lia).
  assert (Hw32 : word32 w).
  { unfold word32. subst w. pow2_constants. Z.div_mod_to_equations. lia. }
  assert (Hopc : opcode (decode w) = op).
  { destruct (decode_fields_div_mod w) as (-> & _). subst w. pow2_constants.
    Z.div_mod_to_equations. lia. }
  split; [exact Hw32 |]. split; [exact Hopc |].
  assert (Hop'' : opcode (decode w) = ALU_IMM \/ opcode (decode w) = JALR)
    by (rewrite Hopc; exact Hop).
  rewrite (decode_imm_I_type_value w Hw32 Hop'').
  destruct (decode_fields_div_mod w) as (_ & -> & -> & -> & _).
  clear Hop Hopc Hop''. unfold word32 in Hw32.
  destruct (Z.ltb_spec w (2 ^ 31)) as [H | H]; subst w; pow2_constants;
    repeat split; Z.div_mod_to_equations; lia.
Qed.

Lemma decode_I_type_round_trip_witness :
  word32 0xFFF10113
  /\ opcode (decode 0xFFF10113) = ALU_IMM /\ rd (decode 0xFFF10113) = 2
  /\ funct3 (decode 0xFFF10113) = 0 /\ rs1 (decode 0xFFF10113) = 2
  /\ imm (decode 0xFFF10113) = -1.
Proof.
  apply (decode_I_type_round_trip ALU_IMM 2 0 2 (-1) 0xFFF10113);
    first [left; reflexivity | lia | reflexivity].
Defined.

Lemma decode_fields_partition_word_witness :
  word32 0x403101B3
  /\ 0x403101B3 = opcode (decode 0x403101B3)
                  + 2 ^ 7 * rd (decode 0x403101B3)
                  + 2 ^ 12 * funct3 (decode 0x403101B3)
                  + 2 ^ 15 * rs1 (decode 0x403101B3)
                  + 2 ^ 20 * rs2 (decode 0x403101B3)
                  + 2 ^ 25 * funct7 (decode 0x403101B3).
Proof.
  assert (Hw : word32 0x403101B3) by (unfold word32; lia).
  split; [exact Hw |].
  apply (decode_fields_partition_word 0x403101B3 Hw).
Defined.

(** Masking a 32-bit word with [0xFFFFF000] clears its low 12 bits. *)
Lemma land_upper_20 w :
  word32 w -> Z.land w 0xFFFFF000 = 2 ^ 12 * (w / 2 ^ 12).
Proof.
  unfold word32. intros Hw.
  rewrite Z.mul_comm, <- Z.shiftl_mul_pow2, <- Z.shiftr_div_pow2 by lia.
  change 0xFFFFF000 with (Z.shiftl (Z.ones 20) 12).
  apply Z.bits_inj'. intros n Hn.
  rewrite Z.land_spec, !testbit_shiftl_total, testbit_shiftr_total.
  rewrite Z.testbit_ones by lia.
  destruct (Z.lt_ge_cases n 12) as [H12 | H12].
  - decide_comparisons. cbn [andb]. rewrite andb_false_r. reflexivity.
  - destruct (Z.lt_ge_cases n 32) as [H32 | H32].
    + decide_comparisons. cbn [andb]. rewrite andb_true_r.
      f_equal. lia.
    + replace (n - 12 + 12) with n by lia.
      rewrite (testbit_small_high w 32 n) by lia.
      cbn [andb]. rewrite !andb_false_r. reflexivity.
Qed.

Lemma execute_LUI d f3 s1 s2 f7 im st :
  execute LUI d f3 s1 s2 f7 im st = write_reg d (u32 im) st.
Proof. reflexivity. Qed.

Lemma execute_AUIPC d f3 s1 s2 f7 im st :
  execute AUIPC d f3 s1 s2 f7 im st = write_reg d (u32 (pc st + u32 im)) st.
Proof. reflexivity. Qed.

(** X7. For a 32-bit word, the mask [0xFFFFF000] keeps bits 31:12 in place;
    a decoded LUI stores that masked word in [R[rd]], a decoded AUIPC stores
    the program counter plus the masked word modulo [2^32], and neither
    changes the program counter. *)
Theorem execute_decoded_U_type (w : Z) (st : RiscVEmu) :
  wf_registers st -> word32 w ->
  Z.land w 0xFFFFF000 = 2 ^ 12 * (w / 2 ^ 12)
  /\ (opcode (decode w) = LUI ->
      exists st', execute_decoded (decode w) st = Some st'
                  /\ read_reg (rd (decode w)) st' = Some (Z.land w 0xFFFFF000)
                  /\ pc st' = pc st)
  /\ (opcode (decode w) = AUIPC ->
      exists st', execute_decoded (decode w) st = Some st'
                  /\ read_reg (rd (decode w)) st'
                     = Some ((pc st + Z.land w 0xFFFFF000) mod 2 ^ 32)
                  /\ pc st' = pc st).
Proof.
  intros Hwf Hw. pose proof (land_upper_20 w Hw) as Hland.
  assert (Hrange : 0 <= Z.land w 0xFFFFF000 < 2 ^ 32).
  { rewrite Hland. unfold word32 in Hw. pow2_constants.
    Z.div_mod_to_equations. lia. }
  split; [exact Hland |]. split; intros Hop; unfold execute_decoded.
  - rewrite (decode_imm_U_type w (or_introl Hop)), Hop, execute_LUI.
    rewrite (write_reg_Some st _ _ Hwf (decode_rd_range w)).
    eexists. split; [reflexivity |]. split; [| reflexivity].
    unfold u32. rewrite i32_mod, Z.mod_small by exact Hrange.
    apply (read_reg_written st _ _ Hwf (decode_rd_range w)).
  - rewrite (decode_imm_U_type w (or_intror Hop)), Hop, execute_AUIPC.
    rewrite (write_reg_Some st _ _ Hwf (decode_rd_range w)).
    eexists. split; [reflexivity |]. split; [| reflexivity].
    rewrite u32_add_u32_r.
    rewrite <- (Zplus_mod_idemp_r (i32 _)), i32_mod, Zplus_mod_idemp_r.
    apply (read_reg_written st _ _ Hwf (decode_rd_range w)).
Qed.

Lemma execute_decoded_U_type_witness :
  wf_registers (new_RiscVEmu 4) /\ word32 0x123452B7
  /\ opcode (decode 0x123452B7) = LUI /\ rd (decode 0x123452B7) = 5
  /\ exists st', execute_decoded (decode 0x123452B7) (new_RiscVEmu 4) = Some st'
                 /\ read_reg 5 st' = Some 0x12345000
                 /\ pc st' = 0.
Proof.
  assert (Hwf : wf_registers (new_RiscVEmu 4)) by reflexivity.
  assert (Hw : word32 0x123452B7) by (unfold word32; lia).
  split; [exact Hwf |]. split; [exact Hw |].
  split; [reflexivity |]. split; [reflexivity |].
  apply (proj1 (proj2 (execute_decoded_U_type 0x123452B7 (new_RiscVEmu 4) Hwf Hw))).
  reflexivity.
Defined.

(** ** Execute: what it leaves alone *)

Lemma vec_set_inv (v v' : list Z) i x :
  vec_set v i x = Some v' ->
  0 <= i < Z.of_nat (length v) /\ v' = <[Z.to_nat i := x]> v.
Proof.
  unfold vec_set.
  destruct ((0 <=? i) && (i <? Z.of_nat (length v))) eqn:E; [| discriminate].
  apply andb_true_iff in E as [E1 E2].
  apply Z.leb_le in E1. apply Z.ltb_lt in E2.
  intros H. inversion H. split; [lia | reflexivity].
Qed.

Lemma vec_get_insert_ne (v : list Z) i j x :
  0 <= i -> i <> j ->
  vec_get (<[Z.to_nat i := x]> v) j = vec_get v j.
Proof.
  intros Hi Hne. unfold vec_get. rewrite length_insert.
  destruct ((0 <=? j) && (j <? Z.of_nat (length v))) eqn:E; [| reflexivity].
  apply andb_true_iff in E as [E1 _]. apply Z.leb_le in E1.
  apply list_lookup_insert_ne. lia.
Qed.

Lemma write_reg_inv i x st st' :
  write_reg i x st = Some st' ->
  0 <= i < Z.of_nat (length (registers st))
  /\ st' = set_registers (<[Z.to_nat i := x]> (registers st)) st.
Proof.
  unfold write_reg.
  destruct (vec_set (registers st) i x) as [r |] eqn:E; [| discriminate].
  apply vec_set_inv in E as [Hi ->]. simpl. intros H. inversion H.
  split; [exact Hi | reflexivity].
Qed.

Lemma same_but_register_refl d st : same_but_register d st st.
Proof. repeat split. Qed.

Lemma write_reg_frame i x st st' :
  write_reg i x st = Some st' ->
  same_but_register i st st' /\ pc st' = pc st.
Proof.
  intros H. apply write_reg_inv in H as [Hi ->]. unfold same_but_register.
  simpl. rewrite length_insert. repeat split.
  intros j Hj. unfold read_reg. simpl. apply vec_get_insert_ne; lia.
Qed.

Lemma same_but_register_set_pc d p st st' :
  same_but_register d st st' -> same_but_register d st (set_pc p st').
Proof. intros H. exact H. Qed.

(** Splits a successful [execute] into the branches of its [switch]. *)
Ltac execute_branches H :=
  unfold execute in H;
  repeat match type of H with
  | context [if ?c then _ else _] => destruct c eqn:?
  end;
  repeat match type of H with
  | context [write_reg ?i ?x ?s] =>
      let E := fresh "Ew" in
      destruct (write_reg i x s) eqn:E; simpl in H; [| discriminate]
  | context [read_reg ?i ?s] =>
      let E := fresh "Er" in
      destruct (read_reg i s) eqn:E; simpl in H; [| discriminate]
  end;
  inversion H; subst; clear H.

Lemma execute_same_but_register op d f3 s1 s2 f7 im st st' :
  execute op d f3 s1 s2 f7 im st = Some st' ->
  same_but_register d st st' /\ (op <> JAL -> op <> JALR -> pc st' = pc st).
Proof.
  intros H.
  execute_branches H;
    repeat match goal with
    | E : (_ =? _) = true |- _ => apply Z.eqb_eq in E
    | E : write_reg _ _ _ = Some _ |- _ => apply write_reg_frame in E as [? ?]
    end;
    split; try assumption; try apply same_but_register_refl;
    try (intros; assumption); try (intros; reflexivity);
    try (intros; congruence).
Qed.

(** X8. Whatever the instruction, a successful [execute] leaves the memory
    and the size of the register file unchanged, changes no register other
    than [rd], and changes the program counter only for JAL and JALR. *)
Theorem execute_frame (op d f3 s1 s2 f7 im : Z) (st st' : RiscVEmu) :
  execute op d f3 s1 s2 f7 im st = Some st' ->
  memory st' = memory st
  /\ length (registers st') = length (registers st)
  /\ (forall j, j <> d -> read_reg j st' = read_reg j st)
  /\ (op <> JAL -> op <> JALR -> pc st' = pc st).
Proof.
  intros H.
  destruct (execute_same_but_register _ _ _ _ _ _ _ _ _ H)
    as [(Hm & Hl & Hr) Hpc].
  repeat split; assumption.
Qed.

Lemma execute_frame_witness :
  execute ALU_REG 3 0 1 2 0x20 0 wrap_example_state
  = Some (set_registers (<[3%nat := 0xFFFFFFFE]> (registers wrap_example_state))
            wrap_example_state)
  /\ (forall j, j <> 3 ->
        read_reg j (set_registers
                      (<[3%nat := 0xFFFFFFFE]> (registers wrap_example_state))
                      wrap_example_state)
        = read_reg j wrap_example_state).
Proof.
  assert (H : execute ALU_REG 3 0 1 2 0x20 0 wrap_example_state
              = Some (set_registers
                        (<[3%nat := 0xFFFFFFFE]> (registers wrap_example_state))
                        wrap_example_state)) by reflexivity.
  split; [exact H |].
  exact (proj1 (proj2 (proj2 (execute_frame _ _ _ _ _ _ _ _ _ H)))).
Defined.

(** ** JALR *)

Lemma land_word32 a b : word32 a -> word32 (Z.land a b).
Proof.
  unfold word32. intros Ha.
  rewrite <- (Z.mod_small a (2 ^ 32)) by exact Ha.
  rewrite <- (Z.land_ones a 32) by lia.
  rewrite <- Z.land_assoc, (Z.land_comm (Z.ones 32) b), Z.land_assoc.
  rewrite Z.land_ones by lia. apply Z.mod_pos_bound. lia.
Qed.

Lemma execute_JALR d f3 s1 s2 f7 im st :
  execute JALR d f3 s1 s2 f7 im st
  = (st1 ← write_reg d (pc st) st;
     v ← read_reg s1 st1;
     Some (set_pc (Z.land (u32 (v + u32 im)) (u32 (Z.lnot 1))) st1)).
Proof. reflexivity. Qed.

Lemma jalr_target_shape d f3 s1 s2 f7 im st st' :
  execute JALR d f3 s1 s2 f7 im st = Some st' ->
  exists v, pc st' = Z.land (u32 (v + u32 im)) (u32 (Z.lnot 1)).
Proof.
  rewrite execute_JALR. intros H.
  destruct (write_reg d (pc st) st) as [st1 |]; [| discriminate]. simpl in H.
  destruct (read_reg s1 st1) as [v |]; [| discriminate]. simpl in H.
  inversion H. exists v. reflexivity.
Qed.

(** X9. After any JALR the program counter is even (the [& ~1] clears bit
    0) and is a 32-bit value. *)
Theorem jalr_target_is_even (d f3 s1 s2 f7 im : Z) (st st' : RiscVEmu) :
  execute JALR d f3 s1 s2 f7 im st = Some st' ->
  Z.even (pc st') = true /\ 0 <= pc st' < 2 ^ 32.
Proof.
  intros H. destruct (jalr_target_shape _ _ _ _ _ _ _ _ H) as [v ->]. split.
  - rewrite <- Z.negb_odd, <- Z.bit0_odd, Z.land_spec.
    change (Z.testbit (u32 (Z.lnot 1)) 0) with false.
    rewrite andb_false_r. reflexivity.
  - apply land_word32. apply u32_range.
Qed.

Lemma jalr_target_is_even_witness :
  execute JALR 2 0 1 0 0 9 jalr_example_state
  = Some (set_pc 108 (set_registers (<[2%nat := 5]> (registers jalr_example_state))
                        jalr_example_state))
  /\ Z.even 108 = true /\ 0 <= 108 < 2 ^ 32.
Proof.
  assert (H : execute JALR 2 0 1 0 0 9 jalr_example_state
              = Some (set_pc 108
                        (set_registers
                           (<[2%nat := 5]> (registers jalr_example_state))
                           jalr_example_state))) by reflexivity.
  split; [exact H |].
  exact (jalr_target_is_even _ _ _ _ _ _ _ _ H).
Defined.

(** X10. A JALR whose destination differs from its source register stores
    the post-fetch program counter in [R[rd]], leaves [R[rs1]] as it was and
    jumps to [(R[rs1] + imm) & ~1] modulo [2^32]. *)
Theorem jalr_distinct_registers (d f3 s1 s2 f7 im a : Z) (st : RiscVEmu) :
  wf_registers st -> reg_index d -> d <> s1 ->
  read_reg s1 st = Some a ->
  exists st',
    execute JALR d f3 s1 s2 f7 im st = Some st'
    /\ read_reg d st' = Some (pc st)
    /\ read_reg s1 st' = Some a
    /\ pc st' = Z.land ((a + im) mod 2 ^ 32) (Z.lnot 1).
Proof.
  intros Hwf Hd Hne Ha. rewrite execute_JALR.
  rewrite (write_reg_Some st d (pc st) Hwf Hd). simpl.
  assert (Ha' : read_reg s1 (set_registers (<[Z.to_nat d := pc st]> (registers st)) st)
                = Some a).
  { rewrite <- Ha. unfold read_reg. simpl. apply vec_get_insert_ne.
    - unfold reg_index in Hd. lia.
    - exact Hne. }
  rewrite Ha'. simpl. eexists. split; [reflexivity |].
  split; [| split].
  - rewrite read_reg_set_pc. apply read_reg_written; assumption.
  - rewrite read_reg_set_pc. exact Ha'.
  - simpl. rewrite u32_add_u32_r. apply land_u32_lnot_1.
    apply Z.mod_pos_bound. lia.
Qed.

Lemma jalr_distinct_registers_witness :
  read_reg 1 jalr_example_state = Some 100
  /\ exists st',
       execute JALR 2 0 1 0 0 9 jalr_example_state = Some st'
       /\ read_reg 2 st' = Some 5
       /\ read_reg 1 st' = Some 100
       /\ pc st' = Z.land ((100 + 9) mod 2 ^ 32) (Z.lnot 1).
Proof.
  split; [reflexivity |].
  apply (jalr_distinct_registers 2 0 1 0 0 9 100 jalr_example_state).
  - reflexivity.
  - unfold reg_index. lia.
  - lia.
  - reflexivity.
Defined.

(** ** The 32-bit invariant *)

Lemma word32_u32 z : word32 (u32 z).
Proof. apply u32_range. Qed.

Lemma state_ok_write_reg i x st st' :
  state_ok st -> word32 x -> write_reg i x st = Some st' -> state_ok st'.
Proof.
  intros (Hwf & Hregs & Hpc) Hx H. apply write_reg_inv in H as [_ ->].
  split; [apply wf_registers_written; exact Hwf |].
  split; [| exact Hpc]. simpl. apply Forall_insert; assumption.
Qed.

Lemma state_ok_set_pc p st : state_ok st -> word32 p -> state_ok (set_pc p st).
Proof. intros (Hwf & Hregs & _) Hp. repeat split; assumption || apply Hp. Qed.

Lemma execute_state_ok op d f3 s1 s2 f7 im st st' :
  state_ok st -> execute op d f3 s1 s2 f7 im st = Some st' -> state_ok st'.
Proof.
  intros Hok H. pose proof Hok as (_ & _ & Hpc).
  execute_branches H;
    repeat match goal with
    | E : write_reg _ _ _ = Some _ |- _ =>
        apply (state_ok_write_reg _ _ _ _ Hok) in E;
        [| first [apply word32_u32 | exact Hpc]]
    end;
    try assumption;
    apply state_ok_set_pc;
    first [assumption | apply word32_u32 | apply land_word32, word32_u32].
Qed.

Lemma fetch_inv st w st1 :
  fetch st = Some (w, st1) ->
  vec_get (memory st) (pc st) = Some w /\ st1 = set_pc (u32 (pc st + 1)) st.
Proof.
  unfold fetch. destruct (vec_get (memory st) (pc st)) as [x |]; [| discriminate].
  simpl. intros H. inversion H. split; reflexivity.
Qed.

Lemma cycle_inv st st' :
  cycle st = Some st' ->
  exists w, vec_get (memory st) (pc st) = Some w
            /\ execute_decoded (decode w) (set_pc (u32 (pc st + 1)) st) = Some st'.
Proof.
  unfold cycle. destruct (fetch st) as [[w st1] |] eqn:E; [| discriminate].
  apply fetch_inv in E as [Hw ->]. simpl. intros H. exists w. split; assumption.
Qed.

Lemma cycle_state_ok st st' :
  state_ok st -> cycle st = Some st' ->
  state_ok st' /\ memory st' = memory st.
Proof.
  intros Hok H. apply cycle_inv in H as (w & _ & H). unfold execute_decoded in H.
  split.
  - apply (execute_state_ok _ _ _ _ _ _ _ _ _
             (state_ok_set_pc _ _ Hok (word32_u32 _)) H).
  - apply execute_same_but_register in H as [(Hm & _) _]. exact Hm.
Qed.

Lemma cycle_total st :
  wf_registers st -> 0 <= pc st < Z.of_nat (length (memory st)) ->
  exists st', cycle st = Some st'.
Proof.
  intros Hwf Hpc. destruct (vec_get_Some (memory st) (pc st) Hpc) as [w Hw].
  unfold cycle, fetch. rewrite Hw. simpl. unfold execute_decoded.
  destruct (execute_Some (opcode (decode w)) (rd (decode w))
              (funct3 (decode w)) (rs1 (decode w)) (rs2 (decode w))
              (funct7 (decode w)) (imm (decode w))
              (set_pc (u32 (pc st + 1)) st) Hwf
              (decode_rd_range w) (decode_rs1_range w) (decode_rs2_range w))
    as (st' & E & _).
  exists st'. exact E.
Qed.

(** X11. One fetch-decode-execute cycle keeps the class invariant: still
    32 registers, every register and the program counter a 32-bit value; the
    memory is unchanged. *)
Theorem cycle_preserves_state_ok (st st' : RiscVEmu) :
  state_ok st -> cycle st = Some st' ->
  length (registers st') = 32%nat
  /\ Forall word32 (registers st')
  /\ word32 (pc st')
  /\ memory st' = memory st.
Proof.
  intros Hok H. destruct (cycle_state_ok st st' Hok H) as [(H1 & H2 & H3) H4].
  split; [exact H1 |]. split; [exact H2 |]. split; [exact H3 | exact H4].
Qed.

(** ** The run loop: safety and exit condition *)

(** X12. From a state satisfying the class invariant, [run] never indexes
    the memory or the register file out of range, whatever the memory
    holds and however long it runs. *)
Theorem run_never_out_of_range (fuel : nat) (st : RiscVEmu) :
  state_ok st -> run fuel st <> OutOfRange.
Proof.
  unfold run. generalize 0%nat as c. revert st.
  induction fuel as [| fuel IH]; intros st c Hok; simpl.
  - destruct (pc st <? Z.of_nat (length (memory st))); discriminate.
  - destruct (Z.ltb_spec (pc st) (Z.of_nat (length (memory st)))) as [Hlt | Hge];
      [| discriminate].
    pose proof Hok as (Hwf & _ & Hpc). unfold word32 in Hpc.
    destruct (cycle_total st Hwf) as [st' E]; [lia |].
    rewrite E. apply IH.
    apply (cycle_state_ok st st' Hok E).
Qed.

Lemma run_from_returned (fuel : nat) : forall c st st' n,
  run_from fuel c st = Returned st' n ->
  memory st' = memory st
  /\ length (registers st') = length (registers st)
  /\ Z.of_nat (length (memory st)) <= pc st'
  /\ (c <= n <= c + fuel)%nat.
Proof.
  induction fuel as [| fuel IH]; intros c st st' n; simpl.
  - destruct (Z.ltb_spec (pc st) (Z.of_nat (length (memory st)))) as [Hlt | Hge];
      [discriminate |].
    intros H. inversion H; subst. repeat split; lia.
  - destruct (Z.ltb_spec (pc st) (Z.of_nat (length (memory st)))) as [Hlt | Hge].
    + destruct (cycle st) as [st1 |] eqn:E; [| discriminate].
      intros H. apply IH in H as (Hm & Hl & Hpc & Hn).
      apply cycle_inv in E as (w & _ & E). unfold execute_decoded in E.
      apply execute_same_but_register in E as [(Hm1 & Hl1 & _) _].
      simpl in Hm1, Hl1. rewrite Hm1 in Hm, Hpc. rewrite Hl1 in Hl.
      repeat split; try assumption; lia.
    + intros H. inversion H; subst. repeat split; lia.
Qed.

(** X13. When [run] returns, the program counter is at or beyond the end
    of the memory, the memory is what it was before the run, and the
    register file has kept its size. *)
Theorem run_returns_past_memory (fuel : nat) (st st' : RiscVEmu) (n : nat) :
  run fuel st = Returned st' n ->
  Z.of_nat (length (memory st)) <= pc st'
  /\ memory st' = memory st
  /\ length (registers st') = length (registers st)
  /\ (n <= fuel)%nat.
Proof.
  intros H. apply run_from_returned in H as (Hm & Hl & Hpc & Hn).
  repeat split; try assumption; lia.
Qed.

Lemma run_from_fixed_point (fuel : nat) : forall c st,
  pc st < Z.of_nat (length (memory st)) -> cycle st = Some st ->
  run_from fuel c st = OutOfFuel.
Proof.
  induction fuel as [| fuel IH]; intros c st Hpc Hcycle; simpl;
    rewrite (proj2 (Z.ltb_lt _ _) Hpc).
  - reflexivity.
  - rewrite Hcycle. apply IH; assumption.
Qed.

(** X14. [run] has no watchdog: from a state inside the memory that one
    cycle maps to itself, it never returns, whatever the fuel. *)
Theorem run_spins_on_fixed_point (fuel : nat) (st : RiscVEmu) :
  pc st < Z.of_nat (length (memory st)) -> cycle st = Some st ->
  run fuel st = OutOfFuel.
Proof. intros Hpc Hcycle. apply run_from_fixed_point; assumption. Qed.

Lemma run_spins_on_fixed_point_witness :
  opcode (decode 0x00000067) = JALR
  /\ load_program [0x00000067] (new_RiscVEmu 1)
     = Some (set_memory [0x00000067] (new_RiscVEmu 1))
  /\ cycle (set_memory [0x00000067] (new_RiscVEmu 1)) = Some spin_state
  /\ cycle spin_state = Some spin_state
  /\ run 1000 spin_state = OutOfFuel.
Proof.
  repeat (split; [reflexivity |]).
  apply (run_spins_on_fixed_point 1000 spin_state); [simpl; lia | reflexivity].
Defined.

Lemma cycle_preserves_state_ok_witness :
  state_ok jal_example_state
  /\ exists st', cycle jal_example_state = Some st'
                 /\ length (registers st') = 32%nat
                 /\ Forall word32 (registers st')
                 /\ word32 (pc st')
                 /\ memory st' = memory jal_example_state.
Proof.
  assert (Hok : state_ok jal_example_state).
  { split; [reflexivity |]. split.
    - apply Forall_replicate. unfold word32. lia.
    - unfold word32. simpl. lia. }
  split; [exact Hok |].
  exists (mkRiscVEmu (<[1%nat := 5]> (replicate 32 0))
            (memory jal_example_state) 13).
  split; [reflexivity |].
  apply (cycle_preserves_state_ok jal_example_state _ Hok). reflexivity.
Defined.

Lemma state_ok_new_RiscVEmu n : state_ok (new_RiscVEmu n).
Proof.
  split; [reflexivity |]. split.
  - apply Forall_replicate. unfold word32. lia.
  - unfold word32. simpl. lia.
Qed.

Lemma run_never_out_of_range_witness :
  state_ok (new_RiscVEmu 4) /\ run 2 (new_RiscVEmu 4) <> OutOfRange.
Proof.
  split; [apply state_ok_new_RiscVEmu |].
  apply (run_never_out_of_range 2 (new_RiscVEmu 4)).
  apply state_ok_new_RiscVEmu.
Defined.

Lemma run_returns_past_memory_witness :
  run 20 jal_example_state
  = Returned (mkRiscVEmu (<[1%nat := 5]> (replicate 32 0))
                (memory jal_example_state) 16) 4
  /\ Z.of_nat (length (memory jal_example_state)) <= 16
  /\ (4 <= 20)%nat.
Proof.
  assert (H : run 20 jal_example_state
              = Returned (mkRiscVEmu (<[1%nat := 5]> (replicate 32 0))
                            (memory jal_example_state) 16) 4)
    by (vm_compute; reflexivity).
  split; [exact H |].
  destruct (run_returns_past_memory _ _ _ _ H) as (Hpc & _ & _ & Hn).
  split; [exact Hpc | exact Hn].
Defined.

(** ** Words with unsupported opcodes *)

Lemma execute_unsupported op d f3 s1 s2 f7 im st :
  recognized op f3 f7 = false -> execute op d f3 s1 s2 f7 im st = Some st.
Proof.
  unfold recognized, execute.
  destruct (op =? LUI), (op =? AUIPC), (op =? JAL), (op =? JALR),
    (op =? ALU_IMM), (op =? ALU_REG), (f3 =? ADD_SUB), (f7 =? 0x00),
    (f7 =? 0x20); simpl; intros H; solve [discriminate | reflexivity].
Qed.

Lemma run_from_unsupported (k : nat) : forall (fuel c : nat) (st : RiscVEmu),
  Forall (fun w => unsupported_word w = true) (memory st) ->
  Z.of_nat (length (memory st)) < 2 ^ 32 ->
  0 <= pc st ->
  pc st + Z.of_nat k = Z.of_nat (length (memory st)) ->
  (k <= fuel)%nat ->
  run_from fuel c st
  = Returned (set_pc (Z.of_nat (length (memory st))) st) (c + k).
Proof.
  induction k as [| k IH]; intros fuel c st Hun Hsz Hpc0 Hpc Hfuel.
  - rewrite Nat.add_0_r.
    assert (E : (pc st <? Z.of_nat (length (memory st))) = false)
      by (apply Z.ltb_ge; lia).
    assert (Hst : set_pc (Z.of_nat (length (memory st))) st = st)
      by (destruct st; unfold set_pc; simpl in *; f_equal; lia).
    rewrite Hst. destruct fuel; simpl; rewrite E; reflexivity.
  - destruct fuel as [| fuel]; [lia |]. simpl.
    rewrite (proj2 (Z.ltb_lt _ _)) by lia.
    destruct (vec_get_Some (memory st) (pc st)) as [w Hw]; [lia |].
    assert (Hu : unsupported_word w = true)
      by (apply (Forall_lookup_1 _ _ _ _ Hun (vec_get_lookup _ _ _ Hw))).
    apply negb_true_iff in Hu.
    unfold cycle, fetch. rewrite Hw. simpl. unfold execute_decoded.
    rewrite (execute_unsupported _ _ _ _ _ _ _ _ Hu).
    rewrite (IH fuel (S c) (set_pc (u32 (pc st + 1)) st)); simpl;
      try assumption; try lia.
    + f_equal. lia.
    + apply u32_range.
    + rewrite u32_small by lia. lia.
Qed.

(** X15. On a memory that holds only words with unsupported
    opcode/funct3/funct7 combinations (zero words, for instance), [run]
    walks from the program counter to the end of the memory, one cycle per
    word, and returns with registers and memory untouched. *)
Theorem run_over_unsupported_words (fuel : nat) (st : RiscVEmu) :
  Forall (fun w => unsupported_word w = true) (memory st) ->
  Z.of_nat (length (memory st)) < 2 ^ 32 ->
  0 <= pc st <= Z.of_nat (length (memory st)) ->
  (length (memory st) - Z.to_nat (pc st) <= fuel)%nat ->
  run fuel st
  = Returned (set_pc (Z.of_nat (length (memory st))) st)
      (length (memory st) - Z.to_nat (pc st)).
Proof.
  intros Hun Hsz Hpc Hfuel. unfold run.
  apply (run_from_unsupported (length (memory st) - Z.to_nat (pc st)));
    try assumption; lia.
Qed.

Lemma run_over_unsupported_words_witness :
  unsupported_word 0 = true
  /\ run 8 (new_RiscVEmu 8) = Returned (set_pc 8 (new_RiscVEmu 8)) 8.
Proof.
  split; [reflexivity |].
  apply (run_over_unsupported_words 8 (new_RiscVEmu 8)).
  - apply Forall_replicate. reflexivity.
  - simpl. lia.
  - simpl. lia.
  - simpl. lia.
Defined.

(** ** ADD followed by SUB *)

Lemma execute_ADD d s1 s2 im st :
  execute ALU_REG d ADD_SUB s1 s2 0x00 im st
  = (a ← read_reg s1 st; b ← read_reg s2 st; write_reg d (u32 (a + b)) st).
Proof. reflexivity. Qed.

Lemma execute_SUB d s1 s2 im st :
  execute ALU_REG d ADD_SUB s1 s2 0x20 im st
  = (a ← read_reg s1 st; b ← read_reg s2 st; write_reg d (u32 (a - b)) st).
Proof. reflexivity. Qed.

(** X16. [ADD rd, rs1, rs2] followed by [SUB rd, rd, rs2] leaves in [R[rd]]
    the 32-bit value [R[rs1]] had, even when the sum wrapped, provided
    [rd] and [rs2] are different registers. *)
Theorem add_then_sub_restores (d s1 s2 im im' a b : Z) (st : RiscVEmu) :
  wf_registers st -> reg_index d -> d <> s2 ->
  read_reg s1 st = Some a -> read_reg s2 st = Some b ->
  word32 a ->
  exists st1 st2,
    execute ALU_REG d ADD_SUB s1 s2 0x00 im st = Some st1
    /\ execute ALU_REG d ADD_SUB d s2 0x20 im' st1 = Some st2
    /\ read_reg d st2 = Some a.
Proof.
  intros Hwf Hd Hne Ha Hb Hw.
  rewrite execute_ADD, Ha, Hb. simpl.
  rewrite (write_reg_Some st d _ Hwf Hd).
  set (st1 := set_registers (<[Z.to_nat d := u32 (a + b)]> (registers st)) st).
  assert (Hwf1 : wf_registers st1) by (apply wf_registers_written; exact Hwf).
  assert (Hd1 : read_reg d st1 = Some (u32 (a + b)))
    by (apply read_reg_written; assumption).
  assert (Hb1 : read_reg s2 st1 = Some b).
  { rewrite <- Hb. unfold read_reg. simpl. apply vec_get_insert_ne.
    - unfold reg_index in Hd. lia.
    - exact Hne. }
  exists st1. rewrite execute_SUB, Hd1, Hb1. simpl.
  rewrite (write_reg_Some st1 d _ Hwf1 Hd).
  eexists. split; [reflexivity |]. split; [reflexivity |].
  replace a with (u32 (u32 (a + b) - b)) at 2.
  - apply read_reg_written; assumption.
  - unfold u32. rewrite Zminus_mod_idemp_l.
    replace (a + b - b) with a by lia. apply Z.mod_small. exact Hw.
Qed.

Lemma add_then_sub_restores_witness :
  read_reg 1 wrap_example_state = Some 0xFFFFFFFF
  /\ read_reg 2 wrap_example_state = Some 1
  /\ exists st1 st2,
       execute ALU_REG 3 ADD_SUB 1 2 0x00 0 wrap_example_state = Some st1
       /\ execute ALU_REG 3 ADD_SUB 3 2 0x20 0 st1 = Some st2
       /\ read_reg 3 st2 = Some 0xFFFFFFFF.
Proof.
  split; [reflexivity |]. split; [reflexivity |].
  apply (add_then_sub_restores 3 1 2 0 0 0xFFFFFFFF 1 wrap_example_state).
  - reflexivity.
  - unfold reg_index. lia.
  - lia.
  - reflexivity.
  - reflexivity.
  - unfold word32. lia.
Defined.

(** ** JAL in the loop *)

(** X17. A cycle that fetches a JAL word at program counter [p] stores
    [p + 1] (the post-fetch program counter) in [R[rd]] and continues at
    [p + 1 + imm], both modulo [2^32], with the memory unchanged. *)
Theorem cycle_jal (st : RiscVEmu) (w : Z) :
  wf_registers st ->
  vec_get (memory st) (pc st) = Some w ->
  opcode (decode w) = JAL ->
  exists st',
    cycle st = Some st'
    /\ read_reg (rd (decode w)) st' = Some ((pc st + 1) mod 2 ^ 32)
    /\ pc st' = (pc st + 1 + imm (decode w)) mod 2 ^ 32
    /\ memory st' = memory st.
Proof.
  intros Hwf Hw Hop. unfold cycle, fetch. rewrite Hw. simpl.
  unfold execute_decoded. rewrite Hop, execute_JAL.
  set (st1 := set_pc (u32 (pc st + 1)) st).
  assert (Hwf1 : wf_registers st1) by exact Hwf.
  rewrite (write_reg_Some st1 _ _ Hwf1 (decode_rd_range w)). simpl.
  eexists. split; [reflexivity |]. split; [| split; [| reflexivity]].
  - rewrite read_reg_set_pc.
    apply (read_reg_written st1 _ _ Hwf1 (decode_rd_range w)).
  - simpl. rewrite u32_add_u32_r. unfold u32.
    rewrite Zplus_mod_idemp_l. reflexivity.
Qed.

Lemma cycle_jal_witness :
  vec_get (memory jal_example_state) (pc jal_example_state) = Some 0x008000EF
  /\ exists st',
       cycle jal_example_state = Some st'
       /\ read_reg (rd (decode 0x008000EF)) st' = Some ((4 + 1) mod 2 ^ 32)
       /\ pc st' = (4 + 1 + imm (decode 0x008000EF)) mod 2 ^ 32
       /\ memory st' = memory jal_example_state.
Proof.
  split; [reflexivity |].
  apply (cycle_jal jal_example_state 0x008000EF); reflexivity.
Defined.

(** ** Loading a program: contents and bounds *)

Lemma load_from_too_long (program : list Z) : forall (i : nat) (mem : list Z),
  (i <= length mem)%nat -> (length mem < i + length program)%nat ->
  load_from i program mem = None.
Proof.
  induction program as [| w rest IH]; intros i mem Hi Hlen; simpl in *.
  - lia.
  - destruct (vec_set mem (Z.of_nat i) w) as [mem' |] eqn:E; [| reflexivity].
    apply vec_set_inv in E as [Hlt ->]. simpl.
    apply IH; rewrite length_insert; lia.
Qed.

(** X2. [load_program] writes outside the memory exactly when the program
    has more words than the memory. *)
Theorem load_program_out_of_range_iff (program : list Z) (st : RiscVEmu) :
  load_program program st = None
  <-> (length (memory st) < length program)%nat.
Proof.
  split.
  - intros H.
    destruct (Nat.lt_ge_cases (length (memory st)) (length program))
      as [Hlt | Hge]; [exact Hlt |].
    rewrite (load_program_fits program st Hge) in H. discriminate.
  - intros Hlt. unfold load_program.
    rewrite load_from_too_long by (simpl; lia). reflexivity.
Qed.

(** X1. A program that fits is copied to the start of the memory: after
    [load_program] the word at index [i] is [program[i]] below the program
    length and the previous memory word from there on; the memory size, the
    registers and the program counter are unchanged. *)
Theorem load_program_contents (program : list Z) (st : RiscVEmu) :
  (length program <= length (memory st))%nat ->
  exists st',
    load_program program st = Some st'
    /\ registers st' = registers st
    /\ pc st' = pc st
    /\ length (memory st') = length (memory st)
    /\ forall i : nat,
         memory st' !! i
         = if (i <? length program)%nat then program !! i
           else memory st !! i.
Proof.
  intros Hlen. rewrite (load_program_fits program st Hlen).
  eexists. split; [reflexivity |]. simpl.
  split; [reflexivity |]. split; [reflexivity |]. split.
  - rewrite length_app, length_drop. lia.
  - intros i. destruct (Nat.ltb_spec i (length program)) as [Hi | Hi].
    + apply lookup_app_l. exact Hi.
    + rewrite lookup_app_r by exact Hi. rewrite lookup_drop.
      f_equal. lia.
Qed.

Lemma load_program_contents_witness :
  exists st',
    load_program main_program (new_RiscVEmu 6) = Some st'
    /\ registers st' = replicate 32 0
    /\ pc st' = 0
    /\ length (memory st') = 6%nat
    /\ forall i : nat,
         memory st' !! i
         = if (i <? 4)%nat then main_program !! i
           else replicate 6 0 !! i.
Proof.
  apply (load_program_contents main_program (new_RiscVEmu 6)). simpl. lia.
Defined.
